(** * Board state and rule queries of the territorial conquest game (risk.py)

    A shallow embedding of [Board] and [Player] from [risk.py] (Python 2:
    [range] returns a list, [/] on integers is floor division).  Python
    integers are [Z]; a territory record is the tuple
    [(territory_id, player_id, armies)]; the board's [data] is a Python list,
    read and written through Python's index rules (negative indexes count
    from the end, anything else out of range raises [IndexError]).  The
    tables of the [definitions] module (continent membership, continent
    bonuses, adjacency) are dictionaries, gathered in the record
    [Definitions] and passed to the queries that read them.  Exceptions are
    values of [exn]; the mutators run in a state monad in which the board
    survives a raised exception, as the Python object does. *)

From stdpp Require Import base numbers option list sets gmap strings.

Local Open Scope Z_scope.

(** ** Exceptions and results *)

Inductive exn : Set := AssertionError | IndexError | KeyError.

Inductive result (A : Type) : Type :=
  | Ok (a : A)
  | Raise (e : exn).
Arguments Ok {A} a.
Arguments Raise {A} e.

#[global] Instance exn_eq_dec : EqDecision exn.
Proof. solve_decision. Defined.
#[global] Instance result_eq_dec `{EqDecision A} : EqDecision (result A).
Proof. solve_decision. Defined.

#[global] Instance result_ret : MRet result := @Ok.
#[global] Instance result_bind : MBind result := λ A B f r,
  match r with
  | Ok a => f a
  | Raise e => Raise e
  end.

(** ** Python lists *)

Module Py.

(** [range(n)] for an integer [n]: empty when [n <= 0].  Python builds the
    list in memory and raises instead when [n] is too large for that; the
    model has no such limit, so what is proved of a list or board built
    from [range(n)] speaks of the runs in which Python returns one. *)
Definition range (n : Z) : list Z := Z.of_nat <$> seq 0 (Z.to_nat n).

(** [l * k]: the list repeated [k] times. *)
Definition repeat_list {A} (l : list A) (k : nat) : list A :=
  mjoin (replicate k l).

(** [l[0:k]] *)
Definition slice_to {A} (l : list A) (k : nat) : list A := take k l.

(** The position a Python index denotes in a list of the given length. *)
Definition position (len : nat) (i : Z) : option nat :=
  if decide (0 ≤ i < Z.of_nat len) then Some (Z.to_nat i)
  else if decide (- Z.of_nat len ≤ i < 0) then Some (Z.to_nat (Z.of_nat len + i))
  else None.

(** [l[i]] *)
Definition getitem {A} (l : list A) (i : Z) : result A :=
  match position (length l) i with
  | Some k => match l !! k with
              | Some x => Ok x
              | None => Raise IndexError
              end
  | None => Raise IndexError
  end.

(** [l[i] = x] *)
Definition setitem {A} (l : list A) (i : Z) (x : A) : result (list A) :=
  match position (length l) i with
  | Some k => Ok (<[k := x]> l)
  | None => Raise IndexError
  end.

(** [enumerate(l)] *)
Definition enumerate {A} (l : list A) : list (Z * A) :=
  imap (λ k x, (Z.of_nat k, x)) l.

(** [sum(l)] *)
Definition sum (l : list Z) : Z := foldr Z.add 0 l.

(** [d[k]] on a dictionary *)
Definition dict_get {V} (d : gmap Z V) (k : Z) : result V :=
  match d !! k with
  | Some v => Ok v
  | None => Raise KeyError
  end.

(** Consuming [(x for x in l if c(x))] where the condition may raise. *)
Fixpoint generate {A} (c : A → result bool) (l : list A) : result (list A) :=
  match l with
  | [] => Ok []
  | x :: l' =>
      keep ← c x;
      rest ← generate c l';
      mret (if keep : bool then x :: rest else rest)
  end.

(** [[f(x) for x in l]] where [f] may raise. *)
Fixpoint for_each {A B} (f : A → result B) (l : list A) : result (list B) :=
  match l with
  | [] => Ok []
  | x :: l' => y ← f x; ys ← for_each f l'; mret (y :: ys)
  end.

(** [for x in l: acc = f(acc, x)] where [f] may raise. *)
Fixpoint for_fold {A S} (f : S → A → result S) (acc : S) (l : list A) : result S :=
  match l with
  | [] => Ok acc
  | x :: l' => acc' ← f acc x; for_fold f acc' l'
  end.

(** [len(l)] *)
Definition len {A} (l : list A) : Z := Z.of_nat (length l).

End Py.

(** ** Territory records and the board *)

Definition Territory : Type := Z * Z * Z.

Definition tid_of (t : Territory) : Z := t.1.1.
Definition pid_of (t : Territory) : Z := t.1.2.
Definition arm_of (t : Territory) : Z := t.2.

Record Board : Type := mkBoard { data : list Territory }.

(** An attack option:
    [(from_territory_id, from_armies, to_territory_id, to_player_id, to_armies)]. *)
Definition Attack : Type := Z * Z * Z * Z * Z.

Definition from_id_of (a : Attack) : Z := a.1.1.1.1.
Definition from_armies_of (a : Attack) : Z := a.1.1.1.2.

(** The tables of the [definitions] module that the board reads. *)
Record Definitions : Type := mkDefinitions {
  territory_neighbors : gmap Z (list Z);
  continent_territories : gmap Z (list Z);
  continent_bonuses : gmap Z Z
}.

(** The outcome of [float(num) / den]: the quotient, kept as its two integer
    operands (float rounding is not modelled), or [ZeroDivisionError]; an
    exception raised before the division is passed on. *)
Inductive fraction : Set :=
  | Quotient (num den : Z)
  | ZeroDivisionError
  | FractionRaise (e : exn).

(** The state monad of the mutators: an exception leaves a board behind. *)
Definition M (A : Type) : Type := Board → result A * Board.

#[global] Instance M_ret : MRet M := λ A a b, (Ok a, b).
#[global] Instance M_bind : MBind M := λ A B f m b,
  match m b with
  | (Ok a, b') => f a b'
  | (Raise e, b') => (Raise e, b')
  end.

(** Run a read-only method on the current board. *)
Definition query {A} (q : Board → result A) : M A := λ b, (q b, b).

(** [assert c] *)
Definition py_assert (c : bool) : M () :=
  λ b, if c then (Ok (), b) else (Raise AssertionError, b).

(** [self.data[i] = t] *)
Definition store (i : Z) (t : Territory) : M () := λ b,
  match Py.setitem (data b) i t with
  | Ok d => (Ok (), mkBoard d)
  | Raise e => (Raise e, b)
  end.

Module Board.

(** The 42 slots handed out to the players before the shuffle:
    [(range(n_players)*42)[0:42]]. *)
Definition allocation (n_players : Z) : list Z :=
  Py.slice_to (Py.repeat_list (Py.range n_players) 42) 42.

(** [Board.create]; [shuffle] is the outcome of [random.shuffle] on the
    allocation list. *)
Definition create (shuffle : list Z → list Z) (n_players : Z) : Board :=
  mkBoard ((λ '(tid, pid), (tid, pid, 1)) <$> Py.enumerate (shuffle (allocation n_players))).

Definition owner (self : Board) (territory_id : Z) : result Z :=
  t ← Py.getitem (data self) territory_id; mret (pid_of t).

Definition armies (self : Board) (territory_id : Z) : result Z :=
  t ← Py.getitem (data self) territory_id; mret (arm_of t).

Definition set_owner (territory_id player_id : Z) : M () :=
  arm ← query (λ self, armies self territory_id);
  store territory_id (territory_id, player_id, arm).

Definition set_armies (territory_id n : Z) : M () :=
  _ ← py_assert (bool_decide (n > 0));
  pid ← query (λ self, owner self territory_id);
  store territory_id (territory_id, pid, n).

Definition add_armies (territory_id n : Z) : M () :=
  arm ← query (λ self, armies self territory_id);
  set_armies territory_id (arm + n).

Definition n_armies (self : Board) (player_id : Z) : Z :=
  Py.sum (arm_of <$> filter (λ t, pid_of t = player_id) (data self)).

Definition n_territories (self : Board) (player_id : Z) : Z :=
  Z.of_nat (length (pid_of <$> filter (λ t, pid_of t = player_id) (data self))).

(** [offensive]: a generator over [self.data]; its condition cannot raise. *)
Definition offensive (self : Board) (player_id : Z) : list Territory :=
  filter (λ t, pid_of t = player_id ∧ arm_of t > 1) (data self).

Section Queries.

Variable definitions : Definitions.

(** [continent]: the generator looks the member list up inside its
    condition, once per record, when it is consumed. *)
Definition continent (self : Board) (continent_id : Z) : result (list Territory) :=
  Py.generate
    (λ t, members ← Py.dict_get (continent_territories definitions) continent_id;
          mret (bool_decide (tid_of t ∈ members)))
    (data self).

Definition continent_owner (self : Board) (continent_id : Z) : result (option Z) :=
  c ← continent self continent_id;
  let pids : gset Z := list_to_set (pid_of <$> c) in
  if decide (size pids = 1%nat) then
    match elements pids with
    | pid :: _ => mret (Some pid)
    | [] => Raise IndexError
    end
  else mret None.

(** [neighbors] and [hostile_neighbors] look the neighbor list up in the
    method body, before the generator is built. *)
Definition neighbors (self : Board) (territory_id : Z) : result (list Territory) :=
  neighbor_ids ← Py.dict_get (territory_neighbors definitions) territory_id;
  mret (filter (λ t, tid_of t ∈ neighbor_ids) (data self)).

Definition hostile_neighbors (self : Board) (territory_id : Z) : result (list Territory) :=
  player_id ← owner self territory_id;
  neighbor_ids ← Py.dict_get (territory_neighbors definitions) territory_id;
  mret (filter (λ t, pid_of t ≠ player_id ∧ tid_of t ∈ neighbor_ids) (data self)).

(** The attack tuples of one offensive territory [fr]. *)
Definition attack (fr to : Territory) : Attack :=
  (tid_of fr, arm_of fr, tid_of to, pid_of to, arm_of to).

Definition attacks_from (self : Board) (fr : Territory) : result (list Attack) :=
  hs ← hostile_neighbors self (tid_of fr);
  mret (attack fr <$> (hs : list Territory)).

Definition possible_attacks (self : Board) (player_id : Z) : result (list Attack) :=
  rows ← Py.for_each (attacks_from self) (offensive self player_id);
  mret (mjoin (rows : list (list Attack))).

Definition reinforcements (self : Board) (player_id : Z) : result Z :=
  let base_reinforcements := Z.max 3 (n_territories self player_id / 3) in
  bonus_reinforcements ←
    Py.for_fold
      (λ acc '(continent_id, bonus),
         o ← continent_owner self continent_id;
         mret (if decide (o = Some player_id) then acc + bonus else acc))
      0 (map_to_list (continent_bonuses definitions));
  mret (base_reinforcements + bonus_reinforcements).

(** [n_continents]: the list comprehension calls [continent_owner] for
    the continent ids 0..5 in turn. *)
Definition n_continents (self : Board) (player_id : Z) : result Z :=
  owned ← Py.generate
             (λ continent_id,
                o ← continent_owner self continent_id;
                mret (bool_decide (o = Some player_id)))
             (Py.range 6);
  mret (Py.len owned).

Definition continent_fraction (self : Board) (continent_id player_id : Z) : fraction :=
  match continent self continent_id with
  | Ok c_data =>
      let p_data := filter (λ t, pid_of t = player_id) c_data in
      if decide (Py.len c_data = 0) then ZeroDivisionError
      else Quotient (Py.len p_data) (Py.len c_data)
  | Raise e => FractionRaise e
  end.

End Queries.

End Board.

(** ** Player *)

Module Player.

Record t : Type := mk { pid : Z; name : string }.

(** [Player.__init__] *)
Definition init (pid : Z) (name : string) : result t :=
  if bool_decide (pid ∈ Py.range 6) then Ok (mk pid name) else Raise AssertionError.

End Player.

(** ** Game *)

Module Game.

(** A card tally [(pid, 0, 0, 0)] and a mission slot [(pid, None)]. *)
Record t : Type := mk {
  board : Board;
  cards : list (Z * Z * Z * Z);
  missions : list (Z * option Z);
  players : list Player.t;
  turn : Z
}.

(** [Game.create]; [shuffle] is the outcome of [random.shuffle] inside
    [Board.create]. *)
Definition create (shuffle : list Z → list Z) (players : list Player.t) : t :=
  let n_players := Py.len players in
  {| board := Board.create shuffle n_players;
     cards := (λ pid, (pid, 0, 0, 0)) <$> Py.range n_players;
     missions := (λ pid, (pid, None)) <$> Py.range n_players;
     players := players;
     turn := -1 |}.

End Game.

(** ** Specification vocabulary *)

(** The spec's wording of the allocation: the player ids [0 .. n_players-1]
    repeated cyclically and cut at [k] entries, so that slot [i] holds
    [i mod n_players]. *)
Definition cyclic_fill (n_players : Z) (k : Z) : list Z :=
  (λ i, i mod n_players) <$> Py.range k.

(** A shuffle is any function that returns a permutation of its argument. *)
Definition is_shuffle (shuffle : list Z → list Z) : Prop :=
  ∀ l, shuffle l ≡ₚ l.

(** Every record holds at least one army. *)
Definition armies_positive (b : Board) : Prop :=
  ∀ t, t ∈ data b → 1 ≤ arm_of t.

(** The record at position [i] carries territory id [i]. *)
Definition self_indexed (b : Board) : Prop :=
  ∀ (i : nat) t, data b !! i = Some t → tid_of t = Z.of_nat i.

(** [territory_id] is one of the ids [0 .. len(data)-1]. *)
Definition in_range (b : Board) (territory_id : Z) : Prop :=
  0 ≤ territory_id < Z.of_nat (length (data b)).

(** Player [p] owns every territory whose id is in [members]. *)
Definition owned_by (b : Board) (members : list Z) (p : Z) : Prop :=
  ∀ m, m ∈ members → Board.owner b m = Ok p.

(** The records of the board whose id is in [members], and the players
    that own all of them. *)
Definition continent_records (b : Board) (members : list Z) : list Territory :=
  filter (λ t, tid_of t ∈ members) (data b).

Definition all_owned (b : Board) (members : list Z) (p : Z) : Prop :=
  ∀ t, t ∈ continent_records b members → pid_of t = p.

(** The distinct owner ids among the records whose id is in [members]. *)
Definition distinct_owners (b : Board) (members : list Z) : gset Z :=
  list_to_set (pid_of <$> continent_records b members).

(** The board holds a record for every id in [members]. *)
Definition holds_members (b : Board) (members : list Z) : Prop :=
  ∀ m, m ∈ members → ∃ t, t ∈ data b ∧ tid_of t = m.

(** Every id on the board has a neighbor list, and every continent that
    carries a bonus has a member list. *)
Definition neighbors_populated (defs : Definitions) (b : Board) : Prop :=
  ∀ t, t ∈ data b → is_Some (territory_neighbors defs !! tid_of t).

Definition continents_populated (defs : Definitions) : Prop :=
  ∀ continent_id, is_Some (continent_bonuses defs !! continent_id) →
                  is_Some (continent_territories defs !! continent_id).

(** The bonus values of the continents whose [continent_owner] is [p]. *)
Definition owned_bonuses (defs : Definitions) (b : Board) (p : Z) : list Z :=
  snd <$> filter (λ e, Board.continent_owner defs b e.1 = Ok (Some p))
                 (map_to_list (continent_bonuses defs)).

(** Player [p] is the [continent_owner] of no continent that carries a bonus. *)
Definition owns_no_continent (defs : Definitions) (b : Board) (p : Z) : Prop :=
  ∀ continent_id, is_Some (continent_bonuses defs !! continent_id) →
                  Board.continent_owner defs b continent_id ≠ Ok (Some p).

(** The hostile neighbors of a record as a plain list (empty when
    [hostile_neighbors] raises). *)
Definition hostiles (defs : Definitions) (b : Board) (t : Territory) : list Territory :=
  match Board.hostile_neighbors defs b (tid_of t) with
  | Ok hs => hs
  | Raise _ => []
  end.

(** The three mutating calls of the board, as a caller issues them. *)
Inductive call : Set :=
  | SetOwner (territory_id player_id : Z)
  | SetArmies (territory_id n : Z)
  | AddArmies (territory_id n : Z).

Definition call_tid (c : call) : Z :=
  match c with
  | SetOwner tid _ | SetArmies tid _ | AddArmies tid _ => tid
  end.

Definition run (c : call) : M () :=
  match c with
  | SetOwner tid pid => Board.set_owner tid pid
  | SetArmies tid n => Board.set_armies tid n
  | AddArmies tid n => Board.add_armies tid n
  end.

(** The record a successful call writes over the record [old] it finds,
    and the guard under which it is written. *)
Definition written (c : call) (old : Territory) : Territory :=
  match c with
  | SetOwner tid pid => (tid, pid, arm_of old)
  | SetArmies tid n => (tid, pid_of old, n)
  | AddArmies tid n => (tid, pid_of old, arm_of old + n)
  end.

Definition accepted (c : call) (old : Territory) : Prop :=
  match c with
  | SetOwner _ _ => True
  | SetArmies _ n => n > 0
  | AddArmies _ n => arm_of old + n > 0
  end.

(** The share of player [p] among [n_players]: [floor(42/n_players)], and
    one more for the first [42 mod n_players] players. *)
Definition share (n_players p : Z) : Z :=
  42 / n_players + (if decide (p < 42 mod n_players) then 1 else 0).

(** [1] when the two ids are equal, [0] otherwise. *)
Definition indicator (p q : Z) : Z := if decide (p = q) then 1 else 0.

(** ** A sample map and a hand-built board

    The tables of [definitions.py] are not part of the embedding; the
    examples below run on a sample world of the same shape: 42 territories
    in a chain, grouped into six continents of 9, 4, 7, 6, 12 and 4
    territories. *)

Definition sample_definitions : Definitions :=
  {| territory_neighbors :=
       list_to_map ((λ i, (i, [i - 1; i + 1])) <$> Py.range 42);
     continent_territories :=
       list_to_map
         [(0, seqZ 0 9); (1, seqZ 9 4); (2, seqZ 13 7);
          (3, seqZ 20 6); (4, seqZ 26 12); (5, seqZ 38 4)];
     continent_bonuses :=
       list_to_map [(0, 5); (1, 2); (2, 5); (3, 3); (4, 7); (5, 2)] |}.

(** Player 0 holds continent 0 and territories 9, 13 and 20 (12 in all),
    player 1 holds five territories, player 3 twelve, player 2 the rest;
    territory 13 holds three armies, every other territory one. *)
Definition sample_owner (i : Z) : Z :=
  if bool_decide (i ≤ 9 ∨ i = 13 ∨ i = 20) then 0
  else if bool_decide (i ∈ [10; 11; 12; 14; 15]) then 1
  else if bool_decide (16 ≤ i ≤ 27 ∨ i = 38) then 3
  else 2.

Definition sample_board : Board :=
  mkBoard ((λ i, (i, sample_owner i, if bool_decide (i = 13) then 3 else 1)) <$> Py.range 42).

(** The same world with the 42 territories on a ring, so that adjacency is
    symmetric, and the sample board after territory 12 received a second
    army. *)
Definition sample_ring : Definitions :=
  {| territory_neighbors :=
       list_to_map ((λ i, (i, [(i - 1) mod 42; (i + 1) mod 42])) <$> Py.range 42);
     continent_territories := continent_territories sample_definitions;
     continent_bonuses := continent_bonuses sample_definitions |}.

Definition sample_front : Board :=
  mkBoard (<[12%nat := (12, 1, 2)]> (data sample_board)).

(** ** Small runs *)

Example allocation_of_4 :
  Board.allocation 4 =
  [0;1;2;3;0;1;2;3;0;1;2;3;0;1;2;3;0;1;2;3;0;1;2;3;0;1;2;3;0;1;2;3;0;1;2;3;0;1;2;3;0;1].
Proof. reflexivity. Qed.

Example allocation_of_0 : Board.allocation 0 = [].
Proof. reflexivity. Qed.

(** The hand-built board [(0,A,3), (1,A,2), (2,B,5)] with [A = 0], [B = 1]. *)
Example ownership_aggregation :
  let b := mkBoard [(0, 0, 3); (1, 0, 2); (2, 1, 5)] in
  Board.n_armies b 0 = 5 ∧ Board.n_territories b 0 = 2
  ∧ Board.n_armies b 1 = 5 ∧ Board.n_territories b 1 = 1.
Proof. by vm_compute. Qed.

Example add_armies_to_zero :
  Board.add_armies 7 (-1) sample_board = (Raise AssertionError, sample_board).
Proof. vm_compute. reflexivity. Qed.

Example getitem_negative : Py.getitem [10; 20; 30] (-1) = Ok 30.
Proof. reflexivity. Qed.

Example getitem_out_of_range : Py.getitem [10; 20; 30] 3 = Raise IndexError.
Proof. reflexivity. Qed.

Example sample_attacks :
  Board.possible_attacks sample_definitions sample_board 0
  = Ok [(13, 3, 12, 1, 1); (13, 3, 14, 1, 1)].
Proof. vm_compute. reflexivity. Qed.

Example sample_continent_owners :
  Board.continent_owner sample_definitions sample_board <$> [0; 1; 6]
  = [Ok (Some 0); Ok None; Raise KeyError].
Proof. vm_compute. reflexivity. Qed.

(** ** Board creation *)

Section Create.

Variable shuffle : list Z → list Z.
Hypothesis shuffle_perm : is_shuffle shuffle.

Lemma create_data n :
  data (Board.create shuffle n)
  = imap (λ k pid, (Z.of_nat k, pid, 1)) (shuffle (Board.allocation n)).
Proof.
  unfold Board.create, Py.enumerate; simpl. rewrite fmap_imap. by apply imap_ext.
Qed.

Lemma create_lookup n (i : nat) t :
  data (Board.create shuffle n) !! i = Some t ↔
  ∃ pid, shuffle (Board.allocation n) !! i = Some pid ∧ t = (Z.of_nat i, pid, 1).
Proof.
  rewrite create_data, list_lookup_imap.
  destruct (shuffle (Board.allocation n) !! i) as [pid|]; simpl.
  - split; [intros [= <-]; eauto | intros (? & [= <-] & ->); done].
  - split; [done | intros (? & [=] & _)].
Qed.

Lemma create_pids n :
  pid_of <$> data (Board.create shuffle n) = shuffle (Board.allocation n).
Proof.
  rewrite create_data, fmap_imap.
  rewrite <- (list_fmap_id (shuffle _)) at 2. rewrite <- imap_const.
  by apply imap_ext.
Qed.

Lemma create_tids n :
  tid_of <$> data (Board.create shuffle n)
  = Py.range (Z.of_nat (length (Board.allocation n))).
Proof.
  unfold Py.range. rewrite create_data, fmap_imap, Nat2Z.id.
  rewrite <- (Permutation_length (shuffle_perm (Board.allocation n))).
  rewrite <- (imap_seq_0 (shuffle _) Z.of_nat). by apply imap_ext.
Qed.

Lemma allocation_cyclic n :
  1 ≤ n ≤ 6 → Board.allocation n = cyclic_fill n 42.
Proof.
  intros Hn.
  assert (n = 1 ∨ n = 2 ∨ n = 3 ∨ n = 4 ∨ n = 5 ∨ n = 6) as Hc by lia.
  destruct Hc as [->|[->|[->|[->|[->| ->]]]]]; reflexivity.
Qed.

Lemma allocation_length n : 1 ≤ n ≤ 6 → length (Board.allocation n) = 42%nat.
Proof.
  intros Hn. rewrite allocation_cyclic by done.
  unfold cyclic_fill, Py.range. by rewrite !length_fmap, length_seq.
Qed.

Lemma elem_of_range n x : x ∈ Py.range n ↔ 0 ≤ x < n.
Proof.
  unfold Py.range. rewrite list_elem_of_fmap. setoid_rewrite elem_of_seq.
  split.
  - intros (k & -> & Hk). lia.
  - intros Hx. exists (Z.to_nat x). lia.
Qed.

(** C1: for [n_players] in 1..6 and any shuffle outcome, [Board.create]
    yields exactly 42 records whose territory ids are 0..41 in order (so
    each once), every army count is 1, every owner lies in
    [range(n_players)], and the owners are a permutation of the cyclic
    list [0..n_players-1] cut at 42 entries. *)
Theorem create_full_allocation n_players :
  1 ≤ n_players ≤ 6 →
  let b := Board.create shuffle n_players in
  length (data b) = 42%nat
  ∧ tid_of <$> data b = Py.range 42
  ∧ (∀ t, t ∈ data b → arm_of t = 1)
  ∧ (∀ t, t ∈ data b → pid_of t ∈ Py.range n_players)
  ∧ pid_of <$> data b ≡ₚ cyclic_fill n_players 42.
Proof.
  intros Hn b.
  assert (pid_of <$> data b ≡ₚ cyclic_fill n_players 42) as Hperm.
  { subst b. rewrite create_pids, <- allocation_cyclic by done. apply shuffle_perm. }
  assert (tid_of <$> data b = Py.range 42) as Htid.
  { subst b. by rewrite create_tids, allocation_length. }
  split_and!; [|done| | |done].
  - rewrite <- (length_fmap tid_of), Htid. unfold Py.range.
    by rewrite length_fmap, length_seq.
  - intros t [i Hi]%list_elem_of_lookup.
    apply create_lookup in Hi as (pid & _ & ->). done.
  - intros t Ht. assert (pid_of t ∈ pid_of <$> data b) as Hin
      by (by apply list_elem_of_fmap_2).
    apply (elem_of_Permutation_proper _ _ _ Hperm) in Hin.
    unfold cyclic_fill in Hin.
    apply list_elem_of_fmap in Hin as (i & -> & _).
    apply elem_of_range. apply Z.mod_pos_bound. lia.
Qed.

(** [n_territories] only looks at the owners, up to their order. *)
Lemma n_territories_owners b p :
  Board.n_territories b p
  = Z.of_nat (length (filter (λ x, x = p) (pid_of <$> data b))).
Proof.
  unfold Board.n_territories. f_equal. rewrite length_fmap.
  induction (data b) as [|t l IH]; [done|].
  rewrite fmap_cons, !filter_cons. simpl.
  destruct (decide (pid_of t = p)); simpl; by rewrite IH.
Qed.

Lemma create_n_territories n p :
  Board.n_territories (Board.create shuffle n) p
  = Z.of_nat (length (filter (λ x, x = p) (Board.allocation n))).
Proof.
  rewrite n_territories_owners, create_pids. f_equal.
  apply Permutation_length. by rewrite (shuffle_perm _).
Qed.

(** C7: for [n_players] in 1..6 and any shuffle outcome, every player of
    [range(n_players)] receives [floor(42/n_players)] or
    [ceil(42/n_players)] territories, so any two counts differ by at most
    one. *)
Theorem create_fair n_players :
  1 ≤ n_players ≤ 6 →
  let b := Board.create shuffle n_players in
  (∀ p, p ∈ Py.range n_players →
     Board.n_territories b p = 42 / n_players
     ∨ Board.n_territories b p = (42 + n_players - 1) / n_players)
  ∧ (∀ p q, p ∈ Py.range n_players → q ∈ Py.range n_players →
       Z.abs (Board.n_territories b p - Board.n_territories b q) ≤ 1).
Proof.
  intros Hn b.
  assert (∀ p, p ∈ Py.range n_players →
    42 / n_players ≤ Board.n_territories b p ≤ (42 + n_players - 1) / n_players
    ∧ (42 + n_players - 1) / n_players ≤ 42 / n_players + 1) as Hcount.
  { intros p Hp%elem_of_range. subst b. rewrite create_n_territories.
    assert (n_players = 1 ∨ n_players = 2 ∨ n_players = 3
            ∨ n_players = 4 ∨ n_players = 5 ∨ n_players = 6) as Hc by lia.
    destruct Hc as [->|[->|[->|[->|[->| ->]]]]];
      (assert (p = 0 ∨ p = 1 ∨ p = 2 ∨ p = 3 ∨ p = 4 ∨ p = 5) as Hq by lia;
       destruct Hq as [->|[->|[->|[->|[->| ->]]]]]; try lia; vm_compute;
       repeat split; congruence). }
  split.
  - intros p Hp. destruct (Hcount p Hp). lia.
  - intros p q Hp Hq. destruct (Hcount p Hp), (Hcount q Hq). lia.
Qed.

Lemma create_armies_positive n : armies_positive (Board.create shuffle n).
Proof.
  intros t [i Hi]%list_elem_of_lookup.
  apply create_lookup in Hi as (pid & _ & ->). done.
Qed.

Lemma create_self_indexed n : self_indexed (Board.create shuffle n).
Proof. intros i t (pid & _ & ->)%create_lookup. done. Qed.

End Create.

(** ** Python indexing *)

Section Indexing.

Context {A : Type}.
Implicit Types (l : list A) (i : Z) (k : nat).

Lemma position_Some len i k :
  Py.position len i = Some k →
  (k < len)%nat
  ∧ (0 ≤ i ∧ k = Z.to_nat i ∨ i < 0 ∧ k = Z.to_nat (Z.of_nat len + i)).
Proof.
  unfold Py.position. repeat case_decide; intros [= <-]; lia.
Qed.

Lemma position_nonneg len i :
  0 ≤ i < Z.of_nat len → Py.position len i = Some (Z.to_nat i).
Proof. intros Hi. unfold Py.position. by rewrite decide_True. Qed.

Lemma position_nonneg_Some len i k :
  0 ≤ i → Py.position len i = Some k → k = Z.to_nat i ∧ 0 ≤ i < Z.of_nat len.
Proof. intros Hi (Hk & [[_ ->]|[? _]])%position_Some; lia. Qed.

Lemma getitem_Ok l i x :
  Py.getitem l i = Ok x ↔ ∃ k, Py.position (length l) i = Some k ∧ l !! k = Some x.
Proof.
  unfold Py.getitem. destruct (Py.position (length l) i) as [k|].
  - destruct (l !! k) as [y|] eqn:Hy.
    + split; [intros [= ->]; eauto | intros (? & [= <-] & ?); congruence].
    + split; [done | intros (? & [= <-] & ?); congruence].
  - split; [done | intros (? & [=] & _)].
Qed.

Lemma getitem_in_range l i :
  0 ≤ i < Z.of_nat (length l) → ∃ x, l !! Z.to_nat i = Some x ∧ Py.getitem l i = Ok x.
Proof.
  intros Hi. destruct (lookup_lt_is_Some_2 l (Z.to_nat i)) as [x Hx]; [lia|].
  exists x. split; [done|]. apply getitem_Ok. exists (Z.to_nat i).
  by rewrite position_nonneg.
Qed.

End Indexing.

(** ** The mutators, step by step *)

Section Mutators.

Implicit Types (b : Board) (t : Territory).

Lemma set_owner_unfold tid pid b :
  Board.set_owner tid pid b =
  match Py.position (length (data b)) tid with
  | Some k =>
      match data b !! k with
      | Some old => (Ok (), mkBoard (<[k := (tid, pid, arm_of old)]> (data b)))
      | None => (Raise IndexError, b)
      end
  | None => (Raise IndexError, b)
  end.
Proof.
  unfold Board.set_owner, Board.armies, mbind, M_bind, query, store,
    Py.getitem, Py.setitem; simpl.
  destruct (Py.position _ tid) as [k|]; [|done].
  destruct (data b !! k); done.
Qed.

Lemma set_armies_unfold tid n b :
  Board.set_armies tid n b =
  if decide (n > 0) then
    match Py.position (length (data b)) tid with
    | Some k =>
        match data b !! k with
        | Some old => (Ok (), mkBoard (<[k := (tid, pid_of old, n)]> (data b)))
        | None => (Raise IndexError, b)
        end
    | None => (Raise IndexError, b)
    end
  else (Raise AssertionError, b).
Proof.
  unfold Board.set_armies, Board.owner, mbind, M_bind, query, store, py_assert,
    Py.getitem, Py.setitem; simpl.
  rewrite bool_decide_decide. destruct (decide (n > 0)); [|done].
  destruct (Py.position _ tid) as [k|]; [|done].
  destruct (data b !! k); done.
Qed.

Lemma add_armies_unfold tid n b :
  Board.add_armies tid n b =
  match Board.armies b tid with
  | Ok arm => Board.set_armies tid (arm + n) b
  | Raise e => (Raise e, b)
  end.
Proof.
  unfold Board.add_armies, mbind at 1, M_bind, query.
  destruct (Board.armies b tid); done.
Qed.

Lemma armies_Ok b tid a :
  Board.armies b tid = Ok a ↔
  ∃ k old, Py.position (length (data b)) tid = Some k
           ∧ data b !! k = Some old ∧ arm_of old = a.
Proof.
  unfold Board.armies, mbind, result_bind, mret, result_ret.
  destruct (Py.getitem (data b) tid) as [old|e] eqn:Hg.
  - apply getitem_Ok in Hg as (k & Hk & Hold). split.
    + intros [= <-]. eauto.
    + intros (k' & old' & Hk' & Hold' & <-).
      rewrite Hk in Hk'; injection Hk' as <-. congruence.
  - split; [done|]. intros (k & old & Hk & Hold & _).
    assert (Py.getitem (data b) tid = Ok old) by (apply getitem_Ok; eauto).
    congruence.
Qed.

Lemma owner_Ok b tid p :
  Board.owner b tid = Ok p ↔
  ∃ k old, Py.position (length (data b)) tid = Some k
           ∧ data b !! k = Some old ∧ pid_of old = p.
Proof.
  unfold Board.owner, mbind, result_bind, mret, result_ret.
  destruct (Py.getitem (data b) tid) as [old|e] eqn:Hg.
  - apply getitem_Ok in Hg as (k & Hk & Hold). split.
    + intros [= <-]. eauto.
    + intros (k' & old' & Hk' & Hold' & <-).
      rewrite Hk in Hk'; injection Hk' as <-. congruence.
  - split; [done|]. intros (k & old & Hk & Hold & _).
    assert (Py.getitem (data b) tid = Ok old) by (apply getitem_Ok; eauto).
    congruence.
Qed.

(** What a successful call did: one position received one new record. *)
Lemma set_owner_Ok tid pid b b' :
  Board.set_owner tid pid b = (Ok (), b') ↔
  ∃ k old, Py.position (length (data b)) tid = Some k ∧ data b !! k = Some old
           ∧ b' = mkBoard (<[k := (tid, pid, arm_of old)]> (data b)).
Proof.
  rewrite set_owner_unfold.
  destruct (Py.position _ tid) as [k|]; [destruct (data b !! k) as [old|] eqn:Ho|].
  - split; [intros [= <-]; eauto | intros (? & ? & [= <-] & Ho' & ->)].
    rewrite Ho in Ho'. by injection Ho' as <-.
  - split; [done | intros (? & ? & [= <-] & ? & _); congruence].
  - split; [done | intros (? & ? & [=] & _)].
Qed.

Lemma set_armies_Ok tid n b b' :
  Board.set_armies tid n b = (Ok (), b') ↔
  n > 0 ∧
  ∃ k old, Py.position (length (data b)) tid = Some k ∧ data b !! k = Some old
           ∧ b' = mkBoard (<[k := (tid, pid_of old, n)]> (data b)).
Proof.
  rewrite set_armies_unfold.
  destruct (decide (n > 0)); [|split; [done | intros [? _]; done]].
  destruct (Py.position _ tid) as [k|]; [destruct (data b !! k) as [old|] eqn:Ho|].
  - split; [intros [= <-]; split; eauto | intros (_ & ? & ? & [= <-] & Ho' & ->)].
    rewrite Ho in Ho'. by injection Ho' as <-.
  - split; [done | intros (_ & ? & ? & [= <-] & ? & _); congruence].
  - split; [done | intros (_ & ? & ? & [=] & _)].
Qed.

Lemma add_armies_Ok tid n b b' :
  Board.add_armies tid n b = (Ok (), b') ↔
  ∃ k old, Py.position (length (data b)) tid = Some k ∧ data b !! k = Some old
           ∧ arm_of old + n > 0
           ∧ b' = mkBoard (<[k := (tid, pid_of old, arm_of old + n)]> (data b)).
Proof.
  rewrite add_armies_unfold.
  destruct (Board.armies b tid) as [a|e] eqn:Ha.
  - apply armies_Ok in Ha as (k & old & Hk & Ho & <-).
    rewrite set_armies_Ok. split.
    + intros (Hn & k' & old' & Hk' & Ho' & ->).
      rewrite Hk in Hk'; injection Hk' as <-.
      rewrite Ho in Ho'; injection Ho' as <-. eauto 10.
    + intros (k' & old' & Hk' & Ho' & ? & ->).
      rewrite Hk in Hk'; injection Hk' as <-.
      rewrite Ho in Ho'; injection Ho' as <-. eauto 10.
  - split; [done|]. intros (k & old & Hk & Ho & _).
    assert (Board.armies b tid = Ok (arm_of old)) by (apply armies_Ok; eauto).
    congruence.
Qed.

(** A call that raises leaves the board as it was. *)
Lemma set_owner_Raise tid pid b e b' :
  Board.set_owner tid pid b = (Raise e, b') → b' = b.
Proof.
  rewrite set_owner_unfold. repeat case_match; congruence.
Qed.

Lemma set_armies_Raise tid n b e b' :
  Board.set_armies tid n b = (Raise e, b') → b' = b.
Proof.
  rewrite set_armies_unfold. repeat case_match; congruence.
Qed.

Lemma add_armies_Raise tid n b e b' :
  Board.add_armies tid n b = (Raise e, b') → b' = b.
Proof.
  rewrite add_armies_unfold. destruct (Board.armies b tid); [|congruence].
  apply set_armies_Raise.
Qed.

End Mutators.

(** ** Invariants of the stored state *)

Section Invariants.

Implicit Types (b : Board) (t : Territory) (c : call).

(** Every successful call overwrites exactly one position; the record it
    writes carries the id the caller passed and a positive or unchanged
    army count. *)
Lemma run_Ok c b b' :
  run c b = (Ok (), b') →
  ∃ k old new,
    Py.position (length (data b)) (call_tid c) = Some k
    ∧ data b !! k = Some old
    ∧ b' = mkBoard (<[k := new]> (data b))
    ∧ tid_of new = call_tid c
    ∧ (arm_of new = arm_of old ∨ 0 < arm_of new).
Proof.
  destruct c as [tid pid|tid n|tid n]; simpl.
  - intros (k & old & Hk & Ho & ->)%set_owner_Ok.
    exists k, old, (tid, pid, arm_of old). eauto 10.
  - intros (Hn & k & old & Hk & Ho & ->)%set_armies_Ok.
    exists k, old, (tid, pid_of old, n). split_and!; eauto. right; simpl; lia.
  - intros (k & old & Hk & Ho & Hn & ->)%add_armies_Ok.
    exists k, old, (tid, pid_of old, arm_of old + n).
    split_and!; eauto. right; simpl; lia.
Qed.

Lemma run_Raise c b e b' : run c b = (Raise e, b') → b' = b.
Proof.
  destruct c; simpl;
    eauto using set_owner_Raise, set_armies_Raise, add_armies_Raise.
Qed.

Lemma run_armies_positive c b b' :
  armies_positive b → run c b = (Ok (), b') → armies_positive b'.
Proof.
  intros Hinv (k & old & new & Hk & Ho & -> & _ & Harm)%run_Ok t.
  intros [j Hj]%list_elem_of_lookup. simpl in Hj.
  apply list_lookup_insert_Some in Hj as [(-> & -> & _)|[_ Hj]].
  - assert (1 ≤ arm_of old) by (eapply Hinv, list_elem_of_lookup_2, Ho). lia.
  - eapply Hinv, list_elem_of_lookup_2, Hj.
Qed.

Lemma run_self_indexed c b b' :
  self_indexed b → 0 ≤ call_tid c → run c b = (Ok (), b') → self_indexed b'.
Proof.
  intros Hinv Hpos (k & old & new & Hk & Ho & -> & Htid & _)%run_Ok j t Hj.
  simpl in Hj. apply position_nonneg_Some in Hk as [-> Hr]; [|done].
  apply list_lookup_insert_Some in Hj as [(<- & <- & _)|[_ Hj]].
  - rewrite Htid. lia.
  - by apply Hinv.
Qed.

(** On a self-indexed board the point lookups read the record that
    carries the requested id. *)
Lemma self_indexed_lookup b tid p a :
  self_indexed b → in_range b tid →
  (Board.owner b tid = Ok p ∧ Board.armies b tid = Ok a) ↔ ((tid, p, a) : Territory) ∈ data b.
Proof.
  intros Hinv Hr. rewrite owner_Ok, armies_Ok. split.
  - intros [(k & old & Hk & Ho & <-) (k' & old' & Hk' & Ho' & <-)].
    rewrite Hk in Hk'; injection Hk' as <-.
    rewrite Ho in Ho'; injection Ho' as <-.
    apply position_nonneg_Some in Hk as [-> _]; [|apply Hr].
    apply (list_elem_of_lookup_2 _ (Z.to_nat tid)).
    pose proof (Hinv _ _ Ho) as Ht. rewrite Z2Nat.id in Ht by apply Hr.
    rewrite Ho. destruct old as [[i q] x]. unfold tid_of in Ht; simpl in Ht.
    by subst.
  - intros [k Hk]%list_elem_of_lookup.
    pose proof (Hinv _ _ Hk) as Ht. unfold tid_of in Ht; simpl in Ht. subst tid.
    assert (Py.position (length (data b)) (Z.of_nat k) = Some k) as Hp.
    { rewrite position_nonneg by apply Hr. by rewrite Nat2Z.id. }
    split; eauto 10.
Qed.

(** C4: army positivity holds of every created board and is kept by every
    successful [set_owner], [set_armies] and [add_armies] call. *)
Theorem armies_positive_invariant :
  (∀ shuffle n_players, armies_positive (Board.create shuffle n_players))
  ∧ (∀ b tid x b',
       armies_positive b →
       Board.set_owner tid x b = (Ok (), b')
       ∨ Board.set_armies tid x b = (Ok (), b')
       ∨ Board.add_armies tid x b = (Ok (), b') →
       armies_positive b').
Proof.
  split; [apply create_armies_positive|].
  intros b tid x b' Hinv [H|[H|H]].
  - by apply (run_armies_positive (SetOwner tid x) b).
  - by apply (run_armies_positive (SetArmies tid x) b).
  - by apply (run_armies_positive (AddArmies tid x) b).
Qed.

(** C10, as amended: every created board is self-indexed, every
    successful [set_owner], [set_armies] and [add_armies] call whose
    territory id is not negative keeps it so, and on a self-indexed board
    [owner] and [armies] at an id of the board return the fields of the
    record carrying that id. *)
Theorem self_indexed_invariant :
  (∀ shuffle n_players, self_indexed (Board.create shuffle n_players))
  ∧ (∀ b tid x b',
       self_indexed b → 0 ≤ tid →
       Board.set_owner tid x b = (Ok (), b')
       ∨ Board.set_armies tid x b = (Ok (), b')
       ∨ Board.add_armies tid x b = (Ok (), b') →
       self_indexed b')
  ∧ (∀ b tid p a,
       self_indexed b → in_range b tid →
       (Board.owner b tid = Ok p ∧ Board.armies b tid = Ok a) ↔ ((tid, p, a) : Territory) ∈ data b).
Proof.
  split_and!; [apply create_self_indexed| |apply self_indexed_lookup].
  intros b tid x b' Hinv Htid [H|[H|H]].
  - by apply (run_self_indexed (SetOwner tid x) b).
  - by apply (run_self_indexed (SetArmies tid x) b).
  - by apply (run_self_indexed (AddArmies tid x) b).
Qed.

End Invariants.

(** ** Guarded army updates and the frame of [set_owner] *)

Section Updates.

Implicit Types (b : Board) (t : Territory).

Lemma in_range_lookup b tid :
  in_range b tid →
  ∃ old, Py.position (length (data b)) tid = Some (Z.to_nat tid)
         ∧ data b !! Z.to_nat tid = Some old.
Proof.
  intros Hr. destruct (getitem_in_range (data b) tid Hr) as (old & Ho & _).
  exists old. by rewrite position_nonneg.
Qed.

Lemma armies_after_store b tid new :
  in_range b tid →
  Board.armies (mkBoard (<[Z.to_nat tid := new]> (data b))) tid = Ok (arm_of new).
Proof.
  intros Hr. apply armies_Ok. exists (Z.to_nat tid), new. simpl.
  rewrite length_insert, position_nonneg by apply Hr.
  split_and!; [done| |done]. apply list_lookup_insert_eq.
  unfold in_range in Hr. lia.
Qed.

Lemma owner_after_store b tid new :
  in_range b tid →
  Board.owner (mkBoard (<[Z.to_nat tid := new]> (data b))) tid = Ok (pid_of new).
Proof.
  intros Hr. apply owner_Ok. exists (Z.to_nat tid), new. simpl.
  rewrite length_insert, position_nonneg by apply Hr.
  split_and!; [done| |done]. apply list_lookup_insert_eq.
  unfold in_range in Hr. lia.
Qed.

(** C2: at an id of the board, [set_armies] with [n <= 0] and
    [add_armies] with a total [<= 0] raise the assertion and leave the
    board untouched (as does any raising call); with a positive target
    both succeed and the territory then holds that value. *)
Theorem army_updates_guarded b territory_id n :
  in_range b territory_id →
  ∃ a, Board.armies b territory_id = Ok a
    ∧ (n ≤ 0 → Board.set_armies territory_id n b = (Raise AssertionError, b))
    ∧ (a + n ≤ 0 → Board.add_armies territory_id n b = (Raise AssertionError, b))
    ∧ (∀ e b', Board.set_armies territory_id n b = (Raise e, b')
               ∨ Board.add_armies territory_id n b = (Raise e, b') → b' = b)
    ∧ (0 < n →
       ∃ b', Board.set_armies territory_id n b = (Ok (), b')
             ∧ Board.armies b' territory_id = Ok n)
    ∧ (0 < a + n →
       ∃ b', Board.add_armies territory_id n b = (Ok (), b')
             ∧ Board.armies b' territory_id = Ok (a + n)).
Proof.
  intros Hr. destruct (in_range_lookup b territory_id Hr) as (old & Hk & Ho).
  assert (Board.armies b territory_id = Ok (arm_of old)) as Ha
    by (apply armies_Ok; eauto).
  exists (arm_of old). split_and!; [done|..].
  - intros Hn. rewrite set_armies_unfold. by rewrite decide_False by lia.
  - intros Hn. rewrite add_armies_unfold, Ha, set_armies_unfold.
    by rewrite decide_False by lia.
  - intros e b' [H|H]; [by eapply set_armies_Raise | by eapply add_armies_Raise].
  - intros Hn. eexists. split.
    + apply set_armies_Ok. split; [lia|]. eauto.
    + by rewrite armies_after_store.
  - intros Hn. eexists. split.
    + apply add_armies_Ok. exists (Z.to_nat territory_id), old.
      split_and!; [done|done|lia|done].
    + by rewrite armies_after_store.
Qed.

(** C8, as amended: at an id [0 <= territory_id < len(data)] [set_owner]
    succeeds for any player id and stores
    [(territory_id, player_id, old armies)] at that position: the new owner
    is read back, [armies(territory_id)] and the length are kept, and the
    record at every other position is as it was; on a self-indexed board
    the old record already carried [territory_id], so the record differs
    from the old one in its owner field only. *)
Theorem set_owner_frame b territory_id player_id :
  in_range b territory_id →
  ∃ b', Board.set_owner territory_id player_id b = (Ok (), b')
    ∧ Board.owner b' territory_id = Ok player_id
    ∧ Board.armies b' territory_id = Board.armies b territory_id
    ∧ length (data b') = length (data b)
    ∧ (∀ j : nat, j ≠ Z.to_nat territory_id → data b' !! j = data b !! j)
    ∧ (∀ other, in_range b other → other ≠ territory_id →
         Board.owner b' other = Board.owner b other
         ∧ Board.armies b' other = Board.armies b other)
    ∧ (∃ old, data b !! Z.to_nat territory_id = Some old
              ∧ data b' !! Z.to_nat territory_id
                = Some (territory_id, player_id, arm_of old)
              ∧ (self_indexed b →
                 tid_of old = territory_id
                 ∧ data b' !! Z.to_nat territory_id
                   = Some (tid_of old, player_id, arm_of old))).
Proof.
  intros Hr. destruct (in_range_lookup b territory_id Hr) as (old & Hk & Ho).
  set (new := (territory_id, player_id, arm_of old) : Territory).
  exists (mkBoard (<[Z.to_nat territory_id := new]> (data b))).
  assert (Z.to_nat territory_id < length (data b))%nat as Hlt
    by (unfold in_range in Hr; lia).
  split_and!.
  - apply set_owner_Ok. eauto.
  - by rewrite owner_after_store.
  - rewrite armies_after_store by done. symmetry. apply armies_Ok. eauto.
  - simpl. apply length_insert.
  - intros j Hj. simpl. by apply list_lookup_insert_ne.
  - intros other Hr' Hne.
    destruct (in_range_lookup b other Hr') as (t & Hk' & Ht).
    assert (Z.to_nat territory_id ≠ Z.to_nat other) as Hne'
      by (unfold in_range in *; lia).
    assert (<[Z.to_nat territory_id := new]> (data b) !! Z.to_nat other = Some t)
      as Ht' by (by rewrite list_lookup_insert_ne).
    split.
    + transitivity (Ok (pid_of t)); [|symmetry]; apply owner_Ok;
        exists (Z.to_nat other), t; simpl; rewrite ?length_insert; done.
    + transitivity (Ok (arm_of t)); [|symmetry]; apply armies_Ok;
        exists (Z.to_nat other), t; simpl; rewrite ?length_insert; done.
  - exists old. split; [done|]. simpl.
    rewrite list_lookup_insert_eq by done. subst new. split; [done|].
    intros Hinv. rewrite (Hinv _ _ Ho). rewrite Z2Nat.id by apply Hr. done.
Qed.

End Updates.

(** ** Player construction *)

(** C9: constructing a [Player] succeeds exactly for the ids 0..5, whatever
    the name, and raises the assertion for every other id. *)
Theorem player_init_range pid name :
  (0 ≤ pid ≤ 5 → Player.init pid name = Ok (Player.mk pid name))
  ∧ (¬ 0 ≤ pid ≤ 5 → Player.init pid name = Raise AssertionError).
Proof.
  unfold Player.init. split; intros Hp.
  - rewrite bool_decide_eq_true_2; [done|]. apply elem_of_range. lia.
  - rewrite bool_decide_eq_false_2; [done|]. rewrite elem_of_range. lia.
Qed.

(** ** Continent control *)

Section Continents.

Variable defs : Definitions.
Implicit Types (b : Board) (t : Territory).

Lemma generate_filter {A} (P : A → Prop) `{∀ x, Decision (P x)}
    (c : A → result bool) (l : list A) :
  (∀ x, x ∈ l → c x = Ok (bool_decide (P x))) →
  Py.generate c l = Ok (filter P l).
Proof.
  induction l as [|x l IH]; intros Hc; [done|]. simpl.
  rewrite (Hc x) by left. simpl.
  rewrite IH by (intros y Hy; apply Hc; by right). simpl.
  rewrite filter_cons. unfold mret, result_ret.
  destruct (decide (P x)); [by rewrite bool_decide_eq_true_2|
                            by rewrite bool_decide_eq_false_2].
Qed.

Lemma continent_Ok b cid members :
  continent_territories defs !! cid = Some members →
  Board.continent defs b cid = Ok (continent_records b members).
Proof.
  intros Hm. unfold Board.continent. apply generate_filter.
  intros t _. unfold Py.dict_get. by rewrite Hm.
Qed.

(** The member list is only looked up when a record is inspected. *)
Lemma continent_no_records cid : Board.continent defs (mkBoard []) cid = Ok [].
Proof. done. Qed.

Lemma continent_KeyError b cid :
  continent_territories defs !! cid = None → data b ≠ [] →
  Board.continent defs b cid = Raise KeyError.
Proof.
  intros Hm Hb. unfold Board.continent.
  destruct (data b) as [|t l]; [done|]. simpl. unfold Py.dict_get. by rewrite Hm.
Qed.

Lemma distinct_owners_singleton b members p :
  distinct_owners b members = {[p]} ↔
  (∃ t, t ∈ continent_records b members) ∧ all_owned b members p.
Proof.
  unfold distinct_owners, all_owned. rewrite set_eq. split.
  - intros Hs. split.
    + assert (p ∈ ({[p]} : gset Z)) as Hp by (by apply elem_of_singleton).
      apply Hs, elem_of_list_to_set, list_elem_of_fmap in Hp as (t & _ & Ht).
      eauto.
    + intros t Ht. apply (elem_of_singleton (C:=gset Z)), Hs, elem_of_list_to_set.
      by apply list_elem_of_fmap_2.
  - intros [(t & Ht) Hall] q.
    rewrite elem_of_list_to_set, list_elem_of_fmap, elem_of_singleton. split.
    + intros (t' & -> & ?). by apply Hall.
    + intros ->. exists t. split; [symmetry; by apply Hall|done].
Qed.

(** The two outcomes of [continent_owner] when the member list exists. *)
Lemma continent_owner_cases b cid members :
  continent_territories defs !! cid = Some members →
  (∃ p, distinct_owners b members = {[p]}
        ∧ Board.continent_owner defs b cid = Ok (Some p))
  ∨ (size (distinct_owners b members) ≠ 1%nat
     ∧ Board.continent_owner defs b cid = Ok None).
Proof.
  intros Hm. unfold Board.continent_owner.
  rewrite (continent_Ok _ _ _ Hm). simpl.
  fold (distinct_owners b members).
  destruct (decide (size (distinct_owners b members) = 1%nat)) as [Hs|Hs].
  - left. apply size_1_elem_of in Hs as [p Hp]. apply leibniz_equiv in Hp.
    exists p. split; [done|]. by rewrite Hp, elements_singleton.
  - by right.
Qed.

Lemma size_singleton_iff (X : gset Z) : size X = 1%nat ↔ ∃ p, X = {[p]}.
Proof.
  split.
  - intros [p Hp]%size_1_elem_of. exists p. by apply leibniz_equiv.
  - intros [p ->]. apply size_singleton.
Qed.

Lemma continent_owner_Some b cid members p :
  continent_territories defs !! cid = Some members →
  Board.continent_owner defs b cid = Ok (Some p) ↔ distinct_owners b members = {[p]}.
Proof.
  intros Hm.
  destruct (continent_owner_cases b cid members Hm) as [(q & Hq & ->)|[Hs ->]].
  - rewrite Hq. split.
    + by intros [= ->].
    + intros Heq. assert (q ∈ ({[p]} : gset Z)) as ->%elem_of_singleton
        by (rewrite <- Heq; by apply elem_of_singleton).
      done.
  - split; [done|]. intros Heq. destruct Hs. rewrite Heq. apply size_singleton.
Qed.

Lemma continent_owner_None b cid members :
  continent_territories defs !! cid = Some members →
  Board.continent_owner defs b cid = Ok None ↔ size (distinct_owners b members) ≠ 1%nat.
Proof.
  intros Hm.
  destruct (continent_owner_cases b cid members Hm) as [(q & Hq & ->)|[Hs ->]].
  - rewrite Hq, size_singleton. split; [done | by intros []].
  - done.
Qed.

(** A continent with members, on a board that holds them, has records. *)
Lemma continent_records_inhabited b members :
  members ≠ [] → holds_members b members → ∃ t, t ∈ continent_records b members.
Proof.
  intros Hne Hhold. destruct members as [|m ms]; [done|].
  destruct (Hhold m) as (t & Ht & Hid); [left|].
  exists t. apply list_elem_of_filter. split; [|done]. rewrite Hid. left.
Qed.

(** On a self-indexed board, owning the records of the continent and
    owning its territories, looked up by id, are the same. *)
Lemma owned_by_records b members p :
  self_indexed b → holds_members b members →
  owned_by b members p ↔ all_owned b members p.
Proof.
  intros Hinv Hhold. split.
  - intros Hown t [Hm [j Hj]%list_elem_of_lookup]%list_elem_of_filter.
    pose proof (Hinv _ _ Hj) as Hid.
    apply (Hown _), owner_Ok in Hm as (k & old & Hk & Ho & <-).
    rewrite Hid in Hk. apply position_nonneg_Some in Hk as [-> _]; [|lia].
    rewrite Nat2Z.id in Ho. congruence.
  - intros Hall m Hm. destruct (Hhold m Hm) as (t & Ht & <-).
    apply list_elem_of_lookup in Ht as [j Hj].
    pose proof (Hinv _ _ Hj) as Hid. pose proof (lookup_lt_Some _ _ _ Hj) as Hlt.
    apply owner_Ok. exists j, t. split_and!; [|done|].
    + rewrite Hid, position_nonneg by lia. by rewrite Nat2Z.id.
    + apply Hall, list_elem_of_filter. split; [done|].
      by eapply list_elem_of_lookup_2.
Qed.

(** C5, as amended: for a continent with a non-empty member list, on a
    board that holds a record for every member, [continent_owner] returns
    [p] exactly when every record of the continent is owned by [p], which
    is when the
    distinct owners among these records are the one-element set of [p]; it
    returns [None] exactly when no player owns them all, which is when that
    set does not have size 1; it never raises.  On a self-indexed board
    "every record of the continent is owned by [p]" is the same as
    [owner(m) = p] for every member [m]. *)
Theorem continent_owner_spec b continent_id members p :
  continent_territories defs !! continent_id = Some members →
  members ≠ [] →
  holds_members b members →
  Board.continent defs b continent_id = Ok (continent_records b members)
  ∧ (Board.continent_owner defs b continent_id = Ok (Some p) ↔ all_owned b members p)
  ∧ (all_owned b members p ↔ distinct_owners b members = {[p]})
  ∧ ((∃ q, all_owned b members q) ↔ size (distinct_owners b members) = 1%nat)
  ∧ (Board.continent_owner defs b continent_id = Ok None
     ↔ ¬ ∃ q, all_owned b members q)
  ∧ (Board.continent_owner defs b continent_id = Ok None
     ∨ ∃ q, Board.continent_owner defs b continent_id = Ok (Some q))
  ∧ (self_indexed b → all_owned b members p ↔ owned_by b members p).
Proof.
  intros Hm Hne Hhold.
  pose proof (continent_records_inhabited b members Hne Hhold) as Hrec.
  assert (∀ q, all_owned b members q ↔ distinct_owners b members = {[q]}) as Hown.
  { intros q. rewrite distinct_owners_singleton. tauto. }
  assert ((∃ q, all_owned b members q) ↔ size (distinct_owners b members) = 1%nat)
    as Hsize.
  { rewrite size_singleton_iff. by setoid_rewrite Hown. }
  split_and!.
  - by apply continent_Ok.
  - by rewrite Hown, continent_owner_Some.
  - apply Hown.
  - apply Hsize.
  - by rewrite Hsize, continent_owner_None.
  - destruct (continent_owner_cases b continent_id members Hm)
      as [(q & _ & ->)|[_ ->]]; eauto.
  - intros Hinv. symmetry. by apply owned_by_records.
Qed.

End Continents.

(** ** Reinforcements *)

Section Reinforcements.

Variable defs : Definitions.
Implicit Types (b : Board) (p : Z).

Lemma sum_Permutation (l k : list Z) : l ≡ₚ k → Py.sum l = Py.sum k.
Proof. induction 1; simpl; lia. Qed.

Lemma filter_none {A} (P : A → Prop) `{∀ x, Decision (P x)} (l : list A) :
  (∀ x, x ∈ l → ¬ P x) → filter P l = [].
Proof.
  induction l as [|x l IH]; intros Hl; [done|].
  rewrite filter_cons_False by (apply Hl; left).
  apply IH. intros y Hy. apply Hl. by right.
Qed.

(** The accumulation loop over [continent_bonuses.items()]. *)
Lemma bonus_loop b p (items : list (Z * Z)) acc :
  (∀ e, e ∈ items → ∃ o, Board.continent_owner defs b e.1 = Ok o) →
  Py.for_fold
    (λ acc '(continent_id, bonus),
       o ← Board.continent_owner defs b continent_id;
       mret (if decide (o = Some p) then acc + bonus else acc))
    acc items
  = Ok (acc + Py.sum (snd <$> filter
          (λ e, Board.continent_owner defs b e.1 = Ok (Some p)) items)).
Proof.
  revert acc. induction items as [|[cid bonus] items IH]; intros acc Hok.
  - simpl. f_equal. lia.
  - destruct (Hok (cid, bonus)) as [o Ho]; [left|]. simpl in Ho.
    simpl. rewrite Ho. simpl. rewrite filter_cons. simpl.
    rewrite IH by (intros e He; apply Hok; by right).
    rewrite Ho. destruct (decide (o = Some p)) as [->|Hne].
    + rewrite decide_True by done. simpl. f_equal. symmetry. apply Z.add_assoc.
    + rewrite decide_False by congruence. done.
Qed.

Lemma continent_owner_total b continent_id :
  continents_populated defs →
  is_Some (continent_bonuses defs !! continent_id) →
  ∃ o, Board.continent_owner defs b continent_id = Ok o.
Proof.
  intros Hpop [members Hm]%Hpop.
  destruct (continent_owner_cases defs b continent_id members Hm)
    as [(q & _ & ->)|[_ ->]]; eauto.
Qed.

Lemma reinforcements_Ok b p :
  continents_populated defs →
  Board.reinforcements defs b p
  = Ok (Z.max 3 (Board.n_territories b p / 3) + Py.sum (owned_bonuses defs b p)).
Proof.
  intros Hpop. unfold Board.reinforcements. rewrite bonus_loop.
  - simpl. unfold mret, result_ret, owned_bonuses. f_equal.
  - intros [cid bonus] He%elem_of_map_to_list. simpl.
    apply continent_owner_total; [done|]. by exists bonus.
Qed.

Lemma owned_bonuses_none b p : owns_no_continent defs b p → owned_bonuses defs b p = [].
Proof.
  intros Hno. unfold owned_bonuses. rewrite filter_none; [done|].
  intros [cid bonus] He%elem_of_map_to_list. simpl. apply Hno. by exists bonus.
Qed.

Lemma owned_bonuses_one b p c bonus :
  continent_bonuses defs !! c = Some bonus →
  Board.continent_owner defs b c = Ok (Some p) →
  (∀ c', c' ≠ c → is_Some (continent_bonuses defs !! c') →
         Board.continent_owner defs b c' ≠ Ok (Some p)) →
  owned_bonuses defs b p ≡ₚ [bonus].
Proof.
  intros Hc Hown Hothers. unfold owned_bonuses.
  rewrite <- (insert_delete_id (continent_bonuses defs) c bonus Hc) at 1.
  rewrite map_to_list_insert by apply lookup_delete_eq.
  rewrite filter_cons_True by done. rewrite filter_none; [done|].
  intros [c' x] [Hne He]%elem_of_map_to_list%lookup_delete_Some. simpl.
  apply Hothers; [done|]. by exists x.
Qed.

(** C3: [reinforcements] is [max(3, floor(n_territories / 3))] plus the
    bonuses of the continents whose [continent_owner] is the player; so 5
    territories and no continent give 3, 12 territories and no continent
    give 4, and 12 territories with exactly one owned continent of bonus 5
    give 9. *)
Theorem reinforcements_spec b player_id :
  continents_populated defs →
  Board.reinforcements defs b player_id
  = Ok (Z.max 3 (Board.n_territories b player_id / 3)
        + Py.sum (owned_bonuses defs b player_id))
  ∧ (Board.n_territories b player_id = 5 → owns_no_continent defs b player_id →
     Board.reinforcements defs b player_id = Ok 3)
  ∧ (Board.n_territories b player_id = 12 → owns_no_continent defs b player_id →
     Board.reinforcements defs b player_id = Ok 4)
  ∧ (∀ c, Board.n_territories b player_id = 12 →
          continent_bonuses defs !! c = Some 5 →
          Board.continent_owner defs b c = Ok (Some player_id) →
          (∀ c', c' ≠ c → is_Some (continent_bonuses defs !! c') →
                 Board.continent_owner defs b c' ≠ Ok (Some player_id)) →
          Board.reinforcements defs b player_id = Ok 9).
Proof.
  intros Hpop. rewrite reinforcements_Ok by done. split_and!.
  - done.
  - intros -> Hno. by rewrite owned_bonuses_none.
  - intros -> Hno. by rewrite owned_bonuses_none.
  - intros c -> Hc Hown Hothers.
    by rewrite (sum_Permutation _ _ (owned_bonuses_one b player_id c 5 Hc Hown Hothers)).
Qed.

End Reinforcements.

(** ** Attack enumeration *)

Section Attacks.

Variable defs : Definitions.
Implicit Types (b : Board) (t u : Territory) (a : Attack).

Lemma filter_all {A} (P : A → Prop) `{∀ x, Decision (P x)} (l : list A) :
  (∀ x, x ∈ l → P x) → filter P l = l.
Proof.
  induction l as [|x l IH]; intros Hl; [done|].
  rewrite filter_cons_True by (apply Hl; left).
  f_equal. apply IH. intros y Hy. apply Hl. by right.
Qed.

Lemma for_each_fmap {A B} (f : A → result B) (g : A → B) (l : list A) :
  (∀ x, x ∈ l → f x = Ok (g x)) → Py.for_each f l = Ok (g <$> l).
Proof.
  induction l as [|x l IH]; intros Hf; [done|]. simpl.
  rewrite (Hf x) by left. simpl.
  by rewrite IH by (intros y Hy; apply Hf; by right).
Qed.

Lemma join_fmap_bind {A B} (g : A → list B) (l : list A) :
  mjoin (g <$> l) = l ≫= g.
Proof. induction l as [|x l IH]; [done|]. csimpl. by rewrite IH. Qed.

(** On a self-indexed board a record is found under its own id. *)
Lemma self_indexed_record b t :
  self_indexed b → t ∈ data b →
  in_range b (tid_of t)
  ∧ Board.owner b (tid_of t) = Ok (pid_of t)
  ∧ Board.armies b (tid_of t) = Ok (arm_of t).
Proof.
  intros Hinv [j Hj]%list_elem_of_lookup.
  pose proof (Hinv _ _ Hj) as Hid. pose proof (lookup_lt_Some _ _ _ Hj) as Hlt.
  assert (in_range b (tid_of t)) as Hr by (unfold in_range; lia).
  assert (Py.position (length (data b)) (tid_of t) = Some j) as Hk.
  { rewrite position_nonneg by done. rewrite Hid. by rewrite Nat2Z.id. }
  split_and!; [done| |].
  - apply owner_Ok. eauto.
  - apply armies_Ok. eauto.
Qed.

Lemma self_indexed_unique b t u :
  self_indexed b → t ∈ data b → u ∈ data b → tid_of t = tid_of u → t = u.
Proof.
  intros Hinv [i Hi]%list_elem_of_lookup [j Hj]%list_elem_of_lookup Heq.
  rewrite (Hinv _ _ Hi), (Hinv _ _ Hj) in Heq.
  apply Nat2Z.inj in Heq as ->. congruence.
Qed.

Lemma self_indexed_NoDup b : self_indexed b → NoDup (data b).
Proof.
  intros Hinv. apply NoDup_alt. intros i j t Hi Hj.
  apply Nat2Z.inj. by rewrite <- (Hinv _ _ Hi), <- (Hinv _ _ Hj).
Qed.

Lemma neighbors_Ok b tid nbrs :
  territory_neighbors defs !! tid = Some nbrs →
  Board.neighbors defs b tid = Ok (filter (λ u, tid_of u ∈ nbrs) (data b)).
Proof. intros Hn. unfold Board.neighbors, Py.dict_get. by rewrite Hn. Qed.

Lemma hostile_neighbors_Ok b t nbrs :
  self_indexed b → t ∈ data b →
  territory_neighbors defs !! tid_of t = Some nbrs →
  Board.hostile_neighbors defs b (tid_of t)
  = Ok (filter (λ u, pid_of u ≠ pid_of t ∧ tid_of u ∈ nbrs) (data b)).
Proof.
  intros Hinv Ht Hn. unfold Board.hostile_neighbors, Py.dict_get.
  destruct (self_indexed_record b t Hinv Ht) as (_ & -> & _). simpl.
  by rewrite Hn.
Qed.

Lemma possible_attacks_Ok b p :
  self_indexed b → neighbors_populated defs b →
  Board.possible_attacks defs b p
  = Ok (Board.offensive b p ≫= λ t, Board.attack t <$> hostiles defs b t).
Proof.
  intros Hinv Hpop. unfold Board.possible_attacks.
  rewrite (for_each_fmap _ (λ t, Board.attack t <$> hostiles defs b t)).
  - simpl. unfold mret, result_ret. by rewrite join_fmap_bind.
  - intros t [_ Ht]%list_elem_of_filter.
    destruct (Hpop t Ht) as [nbrs Hn].
    unfold Board.attacks_from, hostiles.
    by rewrite (hostile_neighbors_Ok b t nbrs).
Qed.

Lemma hostiles_spec b t u :
  self_indexed b → neighbors_populated defs b → t ∈ data b →
  u ∈ hostiles defs b t ↔
  pid_of u ≠ pid_of t
  ∧ ∃ ns, Board.neighbors defs b (tid_of t) = Ok ns ∧ u ∈ ns.
Proof.
  intros Hinv Hpop Ht. destruct (Hpop t Ht) as [nbrs Hn].
  unfold hostiles. rewrite (hostile_neighbors_Ok b t nbrs) by done.
  rewrite (neighbors_Ok b _ nbrs) by done.
  rewrite list_elem_of_filter. split.
  - intros [[? ?] ?]. split; [done|].
    eexists. split; [done|]. by apply list_elem_of_filter.
  - intros (? & ns & [= <-] & [? ?]%list_elem_of_filter). done.
Qed.

Lemma hostiles_NoDup b t : self_indexed b → NoDup (hostiles defs b t).
Proof.
  intros Hinv. unfold hostiles, Board.hostile_neighbors.
  destruct (Board.owner b (tid_of t)); simpl; [|constructor].
  destruct (Py.dict_get _ _); simpl; [|constructor].
  by apply NoDup_filter, self_indexed_NoDup.
Qed.

#[local] Instance attack_inj t : Inj (=) (=) (Board.attack t).
Proof.
  intros [[i q] x] [[i' q'] x']. unfold Board.attack, tid_of, pid_of, arm_of.
  simpl. congruence.
Qed.

(** The attacks that start at one record of a duplicate-free list. *)
Lemma attacks_of_record (g : Territory → list Attack) (l : list Territory) t :
  (∀ t' a, a ∈ g t' → from_id_of a = tid_of t') →
  (∀ t1 t2, t1 ∈ l → t2 ∈ l → tid_of t1 = tid_of t2 → t1 = t2) →
  NoDup l → t ∈ l →
  filter (λ a, from_id_of a = tid_of t) (l ≫= g) = g t.
Proof.
  intros Hfrom. induction l as [|x l IH]; intros Huniq Hnd Ht.
  { by apply elem_of_nil in Ht. }
  apply NoDup_cons in Hnd as [Hx Hnd]. rewrite bind_cons, filter_app.
  apply elem_of_cons in Ht as [->|Ht].
  - rewrite (filter_all _ (g x)) by (intros a Ha; by apply Hfrom).
    rewrite filter_none; [by rewrite app_nil_r|].
    intros a (t' & Ha & Ht')%list_elem_of_bind.
    rewrite (Hfrom _ _ Ha). intros Heq.
    assert (t' = x) as -> by (apply Huniq; [by right|by left|done]). done.
  - rewrite (filter_none _ (g x)).
    + simpl. apply IH; [|done|done].
      intros t1 t2 H1 H2. apply Huniq; by right.
    + intros a Ha. rewrite (Hfrom _ _ Ha). intros Heq.
      assert (x = t) as -> by (apply Huniq; [by left|by right|done]). done.
Qed.

(** C6, as amended: on a self-indexed board whose ids all have a neighbor
    list, [possible_attacks] returns a duplicate-free list holding exactly the
    tuples built from a record of the player with more than one army and a
    neighbor record of another owner; a territory holding one army is the
    source of no tuple, and a territory of the player holding three armies
    with two hostile neighbors is the source of exactly two tuples, each
    with [from_armies = 3]. *)
Theorem possible_attacks_spec b player_id :
  self_indexed b → neighbors_populated defs b →
  ∃ attacks,
    Board.possible_attacks defs b player_id = Ok attacks
    ∧ NoDup attacks
    ∧ (∀ from_id from_armies to_id to_owner to_armies,
         ((from_id, from_armies, to_id, to_owner, to_armies) : Attack) ∈ attacks ↔
         ((from_id, player_id, from_armies) : Territory) ∈ data b
         ∧ from_armies > 1
         ∧ (∃ ns, Board.neighbors defs b from_id = Ok ns
                  ∧ ((to_id, to_owner, to_armies) : Territory) ∈ ns)
         ∧ to_owner ≠ player_id)
    ∧ (∀ from_id a, Board.armies b from_id = Ok 1 → a ∈ attacks →
                    from_id_of a ≠ from_id)
    ∧ (∀ from_id hs,
         ((from_id, player_id, 3) : Territory) ∈ data b →
         Board.hostile_neighbors defs b from_id = Ok hs → length hs = 2%nat →
         length (filter (λ a, from_id_of a = from_id) attacks) = 2%nat
         ∧ ∀ a, a ∈ filter (λ a, from_id_of a = from_id) attacks →
                from_armies_of a = 3).
Proof.
  intros Hinv Hpop. eexists. split; [by apply possible_attacks_Ok|].
  assert (∀ t, t ∈ Board.offensive b player_id ↔
               t ∈ data b ∧ pid_of t = player_id ∧ arm_of t > 1) as Hoff.
  { intros t. unfold Board.offensive. rewrite list_elem_of_filter. tauto. }
  split_and!.
  - apply NoDup_bind.
    + intros t1 t2 a [Ht1 _]%Hoff [Ht2 _]%Hoff.
      intros (u1 & -> & _)%list_elem_of_fmap (u2 & Heq & _)%list_elem_of_fmap.
      apply (self_indexed_unique b); [done..|].
      unfold Board.attack in Heq. congruence.
    + intros t _. apply NoDup_fmap_2; [apply _|]. by apply hostiles_NoDup.
    + by apply NoDup_filter, self_indexed_NoDup.
  - intros from_id from_armies to_id to_owner to_armies.
    rewrite list_elem_of_bind. split.
    + intros (t & (u & Heq & Hu)%list_elem_of_fmap & (Ht & Hp & Harm)%Hoff).
      apply hostiles_spec in Hu as (Hne & ns & Hns & Hin); [|done..].
      destruct t as [[i q] x], u as [[i' q'] x'].
      unfold Board.attack, tid_of, pid_of, arm_of in *; simpl in *.
      injection Heq as -> -> -> -> ->. subst q. eauto 10.
    + intros (Ht & Harm & (ns & Hns & Hin) & Hne).
      exists (from_id, player_id, from_armies). split; [|by apply Hoff].
      apply list_elem_of_fmap. exists (to_id, to_owner, to_armies).
      split; [done|]. apply hostiles_spec; [done..|]. eauto.
  - intros from_id a Harm (t & (u & -> & _)%list_elem_of_fmap & Ht)%list_elem_of_bind.
    apply Hoff in Ht as (Ht & _ & Hgt).
    unfold from_id_of, Board.attack; simpl. intros <-.
    destruct (self_indexed_record b t Hinv Ht) as (_ & _ & Ha).
    rewrite Ha in Harm. injection Harm as Harm. lia.
  - intros from_id hs Ht Hhs Hlen.
    set (t := (from_id, player_id, 3) : Territory) in *.
    assert (filter (λ a, from_id_of a = from_id)
              (Board.offensive b player_id ≫= λ t, Board.attack t <$> hostiles defs b t)
            = Board.attack t <$> hs) as ->.
    { rewrite (attacks_of_record (λ t, Board.attack t <$> hostiles defs b t) _ t).
      - unfold hostiles. change (tid_of t) with from_id. by rewrite Hhs.
      - by intros t' a (u & -> & _)%list_elem_of_fmap.
      - intros t1 t2 [H1 _]%Hoff [H2 _]%Hoff. by apply (self_indexed_unique b).
      - by apply NoDup_filter, self_indexed_NoDup.
      - apply Hoff. split_and!; [done..|]. unfold t, arm_of; simpl. lia. }
    split; [by rewrite length_fmap|].
    by intros a (u & -> & _)%list_elem_of_fmap.
Qed.

End Attacks.

(** ** The sample world satisfies the standing assumptions *)

Section Checks.

Lemma self_indexed_by_ids (b : Board) :
  tid_of <$> data b = Py.range (Z.of_nat (length (data b))) → self_indexed b.
Proof.
  intros Hids i t Hi.
  assert ((tid_of <$> data b) !! i = Some (tid_of t)) as Hl
    by (by rewrite list_lookup_fmap, Hi).
  rewrite Hids in Hl. unfold Py.range in Hl.
  rewrite list_lookup_fmap in Hl.
  destruct (seq 0 _ !! i) as [k|] eqn:Hk; [|done].
  apply lookup_seq in Hk as [-> _]. by injection Hl as <-.
Qed.

Lemma armies_positive_Forall (b : Board) :
  Forall (λ t, 1 ≤ arm_of t) (data b) → armies_positive b.
Proof. intros Hall t Ht. by apply (proj1 (Forall_forall _ _) Hall). Qed.

Lemma neighbors_populated_Forall (defs : Definitions) (b : Board) :
  Forall (λ t, is_Some (territory_neighbors defs !! tid_of t)) (data b) →
  neighbors_populated defs b.
Proof. intros Hall t Ht. by apply (proj1 (Forall_forall _ _) Hall). Qed.

Lemma continents_populated_dom (defs : Definitions) :
  dom (continent_bonuses defs) ⊆ dom (continent_territories defs) →
  continents_populated defs.
Proof. intros Hsub c Hc%elem_of_dom. by apply elem_of_dom, Hsub. Qed.

Lemma owns_no_continent_Forall (defs : Definitions) (b : Board) (p : Z) :
  map_Forall (λ c _, Board.continent_owner defs b c ≠ Ok (Some p))
             (continent_bonuses defs) →
  owns_no_continent defs b p.
Proof. intros Hall c [x Hx]. by apply (Hall c x). Qed.

Lemma sample_self_indexed : self_indexed sample_board.
Proof. apply self_indexed_by_ids. vm_compute. reflexivity. Qed.

Lemma sample_armies_positive : armies_positive sample_board.
Proof.
  apply armies_positive_Forall.
  apply (bool_decide_unpack _). vm_compute. exact I.
Qed.

Lemma sample_neighbors_populated :
  neighbors_populated sample_definitions sample_board.
Proof.
  apply neighbors_populated_Forall.
  apply (bool_decide_unpack _). vm_compute. exact I.
Qed.

Lemma sample_continents_populated : continents_populated sample_definitions.
Proof.
  apply continents_populated_dom.
  apply (bool_decide_unpack _). vm_compute. exact I.
Qed.

Lemma holds_members_Forall (b : Board) (members : list Z) :
  Forall (λ m, m ∈ tid_of <$> data b) members → holds_members b members.
Proof.
  intros Hall m Hm.
  apply (proj1 (Forall_forall _ _) Hall), list_elem_of_fmap in Hm as (t & -> & Ht).
  eauto.
Qed.

Lemma reverse_is_shuffle : is_shuffle reverse.
Proof. intros l. apply reverse_Permutation. Qed.

Lemma id_is_shuffle : is_shuffle id.
Proof. by intros l. Qed.

End Checks.

(** ** The theorems at concrete inputs *)

Lemma create_full_allocation_witness :
  is_shuffle reverse ∧ 1 ≤ 4 ≤ 6
  ∧ length (data (Board.create reverse 4)) = 42%nat
  ∧ tid_of <$> data (Board.create reverse 4) = Py.range 42
  ∧ pid_of <$> data (Board.create reverse 4) ≡ₚ cyclic_fill 4 42.
Proof.
  assert (1 ≤ 4 ≤ 6) as Hn by lia.
  destruct (create_full_allocation reverse reverse_is_shuffle 4 Hn)
    as (Hlen & Hids & _ & _ & Hperm).
  split; [apply reverse_is_shuffle|]. split; [exact Hn|]. by repeat split.
Defined.

Lemma create_fair_witness :
  is_shuffle reverse ∧ 1 ≤ 4 ≤ 6
  ∧ Z.abs (Board.n_territories (Board.create reverse 4) 0
           - Board.n_territories (Board.create reverse 4) 3) ≤ 1.
Proof.
  assert (1 ≤ 4 ≤ 6) as Hn by lia.
  destruct (create_fair reverse reverse_is_shuffle 4 Hn) as [_ Hdiff].
  split; [apply reverse_is_shuffle|]. split; [exact Hn|].
  apply Hdiff; apply elem_of_range; lia.
Defined.

Lemma army_updates_guarded_witness :
  in_range sample_board 7
  ∧ Board.armies sample_board 7 = Ok 1
  ∧ Board.add_armies 7 (-1) sample_board = (Raise AssertionError, sample_board).
Proof.
  assert (in_range sample_board 7) as Hr by (vm_compute; split; congruence).
  destruct (army_updates_guarded sample_board 7 (-1) Hr)
    as (a & Ha & _ & Hadd & _).
  assert (a = 1) as -> by (vm_compute in Ha; congruence).
  split_and!; [done|done|]. apply Hadd. lia.
Defined.

Lemma armies_positive_invariant_witness :
  armies_positive sample_board
  ∧ ∃ b', Board.add_armies 13 (-2) sample_board = (Ok (), b') ∧ armies_positive b'.
Proof.
  split; [apply sample_armies_positive|].
  exists (Board.add_armies 13 (-2) sample_board).2.
  assert (Board.add_armies 13 (-2) sample_board
          = (Ok (), (Board.add_armies 13 (-2) sample_board).2)) as Hrun
    by (vm_compute; reflexivity).
  split; [exact Hrun|].
  apply (proj2 armies_positive_invariant sample_board 13 (-2) _ sample_armies_positive).
  right; right. exact Hrun.
Defined.

Lemma self_indexed_invariant_witness :
  self_indexed sample_board ∧ 0 ≤ 13
  ∧ ∃ b', Board.set_owner 13 2 sample_board = (Ok (), b') ∧ self_indexed b'.
Proof.
  split; [apply sample_self_indexed|]. split; [lia|].
  exists (Board.set_owner 13 2 sample_board).2.
  assert (Board.set_owner 13 2 sample_board
          = (Ok (), (Board.set_owner 13 2 sample_board).2)) as Hrun
    by (vm_compute; reflexivity).
  split; [exact Hrun|].
  assert (0 ≤ 13) as Hpos by lia.
  apply (proj1 (proj2 self_indexed_invariant) sample_board 13 2 _
           sample_self_indexed Hpos).
  left. exact Hrun.
Defined.

(** C10 as stated fails: a negative territory id in [-len, -1] is accepted
    by Python's indexing, the call succeeds, and the record it writes at
    the last position carries the negative id. *)
Lemma self_indexed_negative_id :
  self_indexed (Board.create id 2)
  ∧ ∃ b', Board.set_owner (-1) 0 (Board.create id 2) = (Ok (), b')
          ∧ data b' !! 41%nat = Some (-1, 0, 1)
          ∧ ¬ self_indexed b'.
Proof.
  split; [apply create_self_indexed|].
  exists (Board.set_owner (-1) 0 (Board.create id 2)).2.
  split_and!; [vm_compute; reflexivity..|].
  intros Hinv. specialize (Hinv 41%nat (-1, 0, 1)).
  assert (tid_of (-1, 0, 1) = Z.of_nat 41) as Habs
    by (apply Hinv; vm_compute; reflexivity).
  vm_compute in Habs. congruence.
Qed.

(** C8 as stated fails on a board that is not self-indexed: after
    [set_owner(-1, 0)] on a created board the last record is [(-1, 0, 1)],
    and [set_owner(41, 1)] at the in-range id 41 replaces it by
    [(41, 1, 1)], changing the id field along with the owner. *)
Lemma set_owner_rewrites_id :
  in_range (Board.set_owner (-1) 0 (Board.create id 2)).2 41
  ∧ data (Board.set_owner (-1) 0 (Board.create id 2)).2 !! 41%nat = Some (-1, 0, 1)
  ∧ ∃ b2, Board.set_owner 41 1 (Board.set_owner (-1) 0 (Board.create id 2)).2
          = (Ok (), b2)
          ∧ data b2 !! 41%nat = Some (41, 1, 1)
          ∧ tid_of (41, 1, 1) ≠ tid_of (-1, 0, 1).
Proof.
  split; [vm_compute; split; congruence|]. split; [vm_compute; reflexivity|].
  exists (Board.set_owner 41 1 (Board.set_owner (-1) 0 (Board.create id 2)).2).2.
  split_and!; [vm_compute; reflexivity..|]. vm_compute. congruence.
Qed.

Lemma set_owner_frame_witness :
  in_range sample_board 13
  ∧ ∃ b', Board.set_owner 13 2 sample_board = (Ok (), b')
          ∧ Board.owner b' 13 = Ok 2
          ∧ Board.armies b' 13 = Ok 3
          ∧ data b' !! 13%nat = Some (13, 2, 3).
Proof.
  assert (in_range sample_board 13) as Hr by (vm_compute; split; congruence).
  destruct (set_owner_frame sample_board 13 2 Hr)
    as (b' & Hrun & Hown & Harm & _ & _ & _ & Hrec).
  split; [done|]. exists b'. split_and!; [done|done| |].
  - rewrite Harm. vm_compute. reflexivity.
  - destruct Hrec as (old & Hold & Hnew & _).
    vm_compute in Hold. injection Hold as <-. exact Hnew.
Defined.

Lemma player_init_range_witness :
  0 ≤ 5 ≤ 5 ∧ Player.init 5 "Ann" = Ok (Player.mk 5 "Ann")
  ∧ ¬ 0 ≤ 6 ≤ 5 ∧ Player.init 6 "Ann" = Raise AssertionError.
Proof.
  assert (0 ≤ 5 ≤ 5) as Hin by lia.
  assert (¬ 0 ≤ 6 ≤ 5) as Hout by lia.
  split; [exact Hin|]. split; [|split; [exact Hout|]].
  - apply (proj1 (player_init_range 5 "Ann") Hin).
  - apply (proj2 (player_init_range 6 "Ann") Hout).
Defined.

Lemma reinforcements_spec_witness :
  continents_populated sample_definitions
  ∧ Board.reinforcements sample_definitions sample_board 1 = Ok 3
  ∧ Board.reinforcements sample_definitions sample_board 3 = Ok 4
  ∧ Board.reinforcements sample_definitions sample_board 0 = Ok 9.
Proof.
  pose proof sample_continents_populated as Hpop.
  split; [exact Hpop|]. split; [|split].
  - destruct (reinforcements_spec sample_definitions sample_board 1 Hpop)
      as (_ & Hfive & _).
    apply Hfive; [vm_compute; reflexivity|].
    apply owns_no_continent_Forall, (bool_decide_unpack _). vm_compute. exact I.
  - destruct (reinforcements_spec sample_definitions sample_board 3 Hpop)
      as (_ & _ & Htwelve & _).
    apply Htwelve; [vm_compute; reflexivity|].
    apply owns_no_continent_Forall, (bool_decide_unpack _). vm_compute. exact I.
  - destruct (reinforcements_spec sample_definitions sample_board 0 Hpop)
      as (_ & _ & _ & Hbonus).
    apply (Hbonus 0); [vm_compute; reflexivity..|].
    assert (map_Forall
              (λ c (_ : Z), c ≠ 0 →
                 Board.continent_owner sample_definitions sample_board c ≠ Ok (Some 0))
              (continent_bonuses sample_definitions)) as Hothers
      by (apply (bool_decide_unpack _); vm_compute; exact I).
    intros c' Hne [x Hx]. exact (Hothers c' x Hx Hne).
Defined.

Lemma continent_owner_spec_witness :
  continent_territories sample_definitions !! 0 = Some (seqZ 0 9)
  ∧ seqZ 0 9 ≠ []
  ∧ holds_members sample_board (seqZ 0 9)
  ∧ Board.continent_owner sample_definitions sample_board 0 = Ok (Some 0)
  ∧ all_owned sample_board (seqZ 0 9) 0
  ∧ owned_by sample_board (seqZ 0 9) 0.
Proof.
  assert (continent_territories sample_definitions !! 0 = Some (seqZ 0 9)) as Hm
    by (vm_compute; reflexivity).
  assert (seqZ 0 9 ≠ []) as Hne by (vm_compute; congruence).
  assert (holds_members sample_board (seqZ 0 9)) as Hh.
  { apply holds_members_Forall, (bool_decide_unpack _). vm_compute. exact I. }
  assert (Board.continent_owner sample_definitions sample_board 0 = Ok (Some 0))
    as Hown by (vm_compute; reflexivity).
  destruct (continent_owner_spec sample_definitions sample_board 0 (seqZ 0 9) 0
              Hm Hne Hh) as (_ & Hiff & _ & _ & _ & _ & Hlook).
  split; [exact Hm|]. split; [exact Hne|]. split; [exact Hh|].
  split; [exact Hown|]. split; [apply Hiff, Hown|].
  apply (Hlook sample_self_indexed), Hiff, Hown.
Defined.

(** C5 as stated fails where the board does not hold the continent's
    members under their own ids.  After [set_owner(-1, 1)] on a board
    created for one player, [continent_owner] of the continent 38..41
    returns player 0 although [owner(41)] is 1; on the one-record board
    [[(0, 0, 1)]] it returns player 0 for the continent 0..8 although
    [owner(1)] raises; and on a board without records it returns [None]
    although no record of the continent is owned by anyone else. *)
Lemma continent_owner_partial_board :
  (continent_territories sample_definitions !! 5 = Some (seqZ 38 4)
   ∧ seqZ 38 4 ≠ []
   ∧ Board.continent_owner sample_definitions
       (Board.set_owner (-1) 1 (Board.create id 1)).2 5 = Ok (Some 0)
   ∧ 41 ∈ seqZ 38 4
   ∧ Board.owner (Board.set_owner (-1) 1 (Board.create id 1)).2 41 = Ok 1
   ∧ ¬ owned_by (Board.set_owner (-1) 1 (Board.create id 1)).2 (seqZ 38 4) 0)
  ∧ (continent_territories sample_definitions !! 0 = Some (seqZ 0 9)
     ∧ seqZ 0 9 ≠ []
     ∧ Board.continent_owner sample_definitions (mkBoard [(0, 0, 1)]) 0 = Ok (Some 0)
     ∧ 1 ∈ seqZ 0 9
     ∧ Board.owner (mkBoard [(0, 0, 1)]) 1 = Raise IndexError
     ∧ ¬ owned_by (mkBoard [(0, 0, 1)]) (seqZ 0 9) 0)
  ∧ (Board.continent_owner sample_definitions (mkBoard []) 0 = Ok None
     ∧ all_owned (mkBoard []) (seqZ 0 9) 0).
Proof.
  assert (41 ∈ seqZ 38 4) as H41 by (apply elem_of_seqZ; lia).
  assert (1 ∈ seqZ 0 9) as H1 by (apply elem_of_seqZ; lia).
  assert (Board.owner (Board.set_owner (-1) 1 (Board.create id 1)).2 41 = Ok 1)
    as Ho41 by (vm_compute; reflexivity).
  assert (Board.owner (mkBoard [(0, 0, 1)]) 1 = Raise IndexError) as Ho1
    by (vm_compute; reflexivity).
  split; [|split].
  - split_and!; [vm_compute; reflexivity|vm_compute; congruence|
                 vm_compute; reflexivity|done|done|].
    intros Hown. specialize (Hown 41 H41). congruence.
  - split_and!; [vm_compute; reflexivity|vm_compute; congruence|
                 vm_compute; reflexivity|done|done|].
    intros Hown. specialize (Hown 1 H1). congruence.
  - split; [reflexivity|]. intros t Ht. by apply elem_of_nil in Ht.
Qed.

(** C6 as stated fails on a board that is not self-indexed: on
    [[(1, 0, 2); (0, 1, 3)]] with the neighbor table [{0: [1], 1: [0]}],
    territory 1 belongs to player 0 with two armies and its neighbor,
    territory 0, belongs to player 1, but [hostile_neighbors(1)] reads the
    attacker's owner at position 1, finds player 1, and [possible_attacks(0)]
    returns no tuple. *)
Lemma possible_attacks_positional_owner :
  ((1, 0, 2) : Territory) ∈ data (mkBoard [(1, 0, 2); (0, 1, 3)])
  ∧ 2 > 1
  ∧ (∃ ns, Board.neighbors (mkDefinitions (list_to_map [(0, [1]); (1, [0])]) ∅ ∅)
             (mkBoard [(1, 0, 2); (0, 1, 3)]) 1 = Ok ns
           ∧ ((0, 1, 3) : Territory) ∈ ns)
  ∧ 1 ≠ 0
  ∧ Board.possible_attacks (mkDefinitions (list_to_map [(0, [1]); (1, [0])]) ∅ ∅)
      (mkBoard [(1, 0, 2); (0, 1, 3)]) 0 = Ok []
  ∧ ∀ attacks,
      Board.possible_attacks (mkDefinitions (list_to_map [(0, [1]); (1, [0])]) ∅ ∅)
        (mkBoard [(1, 0, 2); (0, 1, 3)]) 0 = Ok attacks →
      ((1, 2, 0, 1, 3) : Attack) ∉ attacks.
Proof.
  assert (Board.possible_attacks (mkDefinitions (list_to_map [(0, [1]); (1, [0])]) ∅ ∅)
            (mkBoard [(1, 0, 2); (0, 1, 3)]) 0 = Ok []) as Hrun
    by (vm_compute; reflexivity).
  split_and!.
  - simpl. left.
  - lia.
  - exists [(0, 1, 3)]. split; [vm_compute; reflexivity | left].
  - lia.
  - exact Hrun.
  - intros attacks Hok. rewrite Hrun in Hok. injection Hok as <-.
    intros Hin. by apply elem_of_nil in Hin.
Qed.

Lemma possible_attacks_spec_witness :
  self_indexed sample_board
  ∧ neighbors_populated sample_definitions sample_board
  ∧ ∃ attacks,
      Board.possible_attacks sample_definitions sample_board 0 = Ok attacks
      ∧ NoDup attacks
      ∧ length (filter (λ a, from_id_of a = 13) attacks) = 2%nat.
Proof.
  split; [exact sample_self_indexed|]. split; [exact sample_neighbors_populated|].
  destruct (possible_attacks_spec sample_definitions sample_board 0
              sample_self_indexed sample_neighbors_populated)
    as (attacks & Hok & Hnd & _ & _ & Htwo).
  exists attacks. split; [exact Hok|]. split; [exact Hnd|].
  apply (Htwo 13 [(12, 1, 1); (14, 1, 1)]).
  - apply (list_elem_of_lookup_2 _ 13%nat). vm_compute. reflexivity.
  - vm_compute. reflexivity.
  - reflexivity.
Defined.

(** ** Index bounds of the point lookups *)

Section LookupBounds.

Implicit Types (b : Board) (t : Territory).

Lemma position_None len i :
  Py.position len i = None ↔ i < - Z.of_nat len ∨ Z.of_nat len ≤ i.
Proof. unfold Py.position. repeat case_decide; split; try done; lia. Qed.

Lemma position_wrap len i :
  - Z.of_nat len ≤ i < 0 → Py.position len i = Py.position len (i + Z.of_nat len).
Proof.
  intros Hi. unfold Py.position.
  rewrite (decide_False (P := 0 ≤ i < _)) by lia.
  rewrite (decide_True (P := - _ ≤ i < 0)) by lia.
  rewrite (decide_True (P := 0 ≤ i + _ < _)) by lia.
  f_equal. lia.
Qed.

Lemma getitem_Raise {A} (l : list A) i e :
  Py.getitem l i = Raise e ↔ e = IndexError ∧ Py.position (length l) i = None.
Proof.
  unfold Py.getitem. destruct (Py.position (length l) i) as [k|] eqn:Hk.
  - apply position_Some in Hk as [Hlt _].
    destruct (lookup_lt_is_Some_2 l k Hlt) as [x ->].
    split; [done | by intros [_ ?]].
  - split; [by intros [= <-] | by intros [-> _]].
Qed.

Lemma owner_Raise b tid e :
  Board.owner b tid = Raise e ↔ e = IndexError ∧ Py.position (length (data b)) tid = None.
Proof.
  unfold Board.owner. destruct (Py.getitem (data b) tid) as [t|e'] eqn:Hg; simpl.
  - split; [done|]. intros [_ Hp].
    assert (Py.getitem (data b) tid = Raise IndexError) by (by apply getitem_Raise).
    congruence.
  - apply getitem_Raise in Hg as [-> Hp]. split; [by intros [= <-] | by intros [-> _]].
Qed.

Lemma armies_Raise b tid e :
  Board.armies b tid = Raise e ↔ e = IndexError ∧ Py.position (length (data b)) tid = None.
Proof.
  unfold Board.armies. destruct (Py.getitem (data b) tid) as [t|e'] eqn:Hg; simpl.
  - split; [done|]. intros [_ Hp].
    assert (Py.getitem (data b) tid = Raise IndexError) by (by apply getitem_Raise).
    congruence.
  - apply getitem_Raise in Hg as [-> Hp]. split; [by intros [= <-] | by intros [-> _]].
Qed.

(** Extra: [owner] and [armies] raise exactly when the id lies outside
    [-len(data) .. len(data)-1], and then it is [IndexError]; an id in
    [-len(data) .. -1] reads the record that [id + len(data)] reads. *)
Theorem lookup_bounds b territory_id :
  (Board.owner b territory_id = Raise IndexError
   ↔ territory_id < - Py.len (data b) ∨ Py.len (data b) ≤ territory_id)
  ∧ (Board.armies b territory_id = Raise IndexError
     ↔ territory_id < - Py.len (data b) ∨ Py.len (data b) ≤ territory_id)
  ∧ (∀ e, Board.owner b territory_id = Raise e ∨ Board.armies b territory_id = Raise e →
          e = IndexError)
  ∧ (- Py.len (data b) ≤ territory_id < 0 →
     Board.owner b territory_id = Board.owner b (territory_id + Py.len (data b))
     ∧ Board.armies b territory_id = Board.armies b (territory_id + Py.len (data b))).
Proof.
  unfold Py.len. split_and!.
  - rewrite owner_Raise, position_None. tauto.
  - rewrite armies_Raise, position_None. tauto.
  - intros e [[-> _]%owner_Raise|[-> _]%armies_Raise]; done.
  - intros Hneg. unfold Board.owner, Board.armies, Py.getitem.
    by rewrite (position_wrap _ _ Hneg).
Qed.

End LookupBounds.

Lemma lookup_bounds_witness :
  - Py.len (data sample_board) ≤ -1 < 0
  ∧ Board.owner sample_board (-1) = Ok 2
  ∧ Board.owner sample_board 41 = Ok 2
  ∧ Board.armies sample_board 42 = Raise IndexError.
Proof.
  assert (- Py.len (data sample_board) ≤ -1 < 0) as Hneg by (vm_compute; split; congruence).
  destruct (lookup_bounds sample_board (-1)) as (_ & _ & _ & Hwrap).
  destruct (Hwrap Hneg) as [Hown _].
  split; [exact Hneg|]. split; [|split].
  - rewrite Hown. vm_compute. reflexivity.
  - vm_compute. reflexivity.
  - apply (proj1 (proj2 (lookup_bounds sample_board 42))). right. vm_compute. congruence.
Defined.

(** ** Outcomes of the mutating calls *)

Section Outcomes.

Implicit Types (b : Board) (t : Territory) (c : call).

(** A call succeeds exactly when its id denotes a position and its guard
    holds of the record found there; it then overwrites that position. *)
Lemma run_Ok_iff c b b' :
  run c b = (Ok (), b') ↔
  ∃ k old, Py.position (length (data b)) (call_tid c) = Some k
           ∧ data b !! k = Some old
           ∧ accepted c old
           ∧ b' = mkBoard (<[k := written c old]> (data b)).
Proof.
  destruct c as [tid pid|tid n|tid n]; simpl.
  - rewrite set_owner_Ok. split.
    + intros (k & old & ? & ? & ->). eauto 10.
    + intros (k & old & ? & ? & _ & ->). eauto 10.
  - rewrite set_armies_Ok. split.
    + intros (? & k & old & ? & ? & ->). eauto 10.
    + intros (k & old & ? & ? & ? & ->). eauto 10.
  - rewrite add_armies_Ok. split.
    + intros (k & old & ? & ? & ? & ->). eauto 10.
    + intros (k & old & ? & ? & ? & ->). eauto 10.
Qed.

Lemma position_lookup b tid k :
  Py.position (length (data b)) tid = Some k → ∃ old, data b !! k = Some old.
Proof. intros [Hlt _]%position_Some. by apply lookup_lt_is_Some_2. Qed.

Lemma position_negative len i k :
  i < 0 → Py.position len i = Some k →
  - Z.of_nat len ≤ i ∧ k = Z.to_nat (Z.of_nat len + i).
Proof. intros Hi. unfold Py.position. repeat case_decide; intros [= <-]; lia. Qed.

(** Extra: with an id outside [-len(data) .. len(data)-1] every mutator
    raises and leaves the board alone; [set_owner] and [add_armies] raise
    [IndexError], while [set_armies] checks its assertion first and raises
    [AssertionError] for [n <= 0] and [IndexError] only for [n > 0]. *)
Theorem out_of_range_updates b territory_id x :
  territory_id < - Py.len (data b) ∨ Py.len (data b) ≤ territory_id →
  Board.set_owner territory_id x b = (Raise IndexError, b)
  ∧ Board.add_armies territory_id x b = (Raise IndexError, b)
  ∧ (x > 0 → Board.set_armies territory_id x b = (Raise IndexError, b))
  ∧ (x ≤ 0 → Board.set_armies territory_id x b = (Raise AssertionError, b)).
Proof.
  intros Hout. assert (Py.position (length (data b)) territory_id = None) as Hp
    by (by apply position_None).
  assert (Board.armies b territory_id = Raise IndexError) as Ha
    by (by apply armies_Raise).
  split_and!.
  - by rewrite set_owner_unfold, Hp.
  - by rewrite add_armies_unfold, Ha.
  - intros Hx. rewrite set_armies_unfold, Hp. by rewrite decide_True.
  - intros Hx. rewrite set_armies_unfold. by rewrite decide_False by lia.
Qed.

(** Extra: whatever the board, a successful call whose id is negative
    stores that negative id in a record, so the board it leaves is not
    self-indexed; [set_owner] succeeds for every id in
    [-len(data) .. -1]. *)
Theorem negative_id_breaks_indexing b c b' :
  call_tid c < 0 → run c b = (Ok (), b') →
  ¬ self_indexed b'
  ∧ ∃ k t, data b' !! k = Some t ∧ tid_of t = call_tid c
           ∧ Z.of_nat k = call_tid c + Py.len (data b).
Proof.
  intros Hneg (k & old & Hk & Ho & _ & ->)%run_Ok_iff.
  pose proof (proj1 (position_Some _ _ _ Hk)) as Hlt.
  apply position_negative in Hk as [Hlow ->]; [|done].
  assert (tid_of (written c old) = call_tid c) as Hid by (by destruct c).
  assert (data (mkBoard (<[Z.to_nat (Z.of_nat (length (data b)) + call_tid c)
                          := written c old]> (data b)))
          !! Z.to_nat (Z.of_nat (length (data b)) + call_tid c)
          = Some (written c old)) as Hl
    by (simpl; by apply list_lookup_insert_eq).
  split.
  - intros Hinv. specialize (Hinv _ _ Hl). lia.
  - eexists _, _. split; [exact Hl|]. split; [done|]. unfold Py.len. lia.
Qed.

(** Extra: a successful [set_armies] or [add_armies] keeps the owner read
    at its id and the length of the board, and leaves [owner] and [armies]
    at every id that denotes another position as they were. *)
Theorem army_update_frame b territory_id n b' :
  Board.set_armies territory_id n b = (Ok (), b')
  ∨ Board.add_armies territory_id n b = (Ok (), b') →
  Board.owner b' territory_id = Board.owner b territory_id
  ∧ length (data b') = length (data b)
  ∧ (∀ other, Py.position (length (data b)) other
              ≠ Py.position (length (data b)) territory_id →
              Board.owner b' other = Board.owner b other
              ∧ Board.armies b' other = Board.armies b other).
Proof.
  intros Hrun.
  assert (∃ k old new, Py.position (length (data b)) territory_id = Some k
            ∧ data b !! k = Some old ∧ pid_of new = pid_of old
            ∧ b' = mkBoard (<[k := new]> (data b))) as (k & old & new & Hk & Ho & Hp & ->).
  { destruct Hrun as [(_ & k & old & ? & ? & ->)%set_armies_Ok
                     |(k & old & ? & ? & _ & ->)%add_armies_Ok].
    - exists k, old, (territory_id, pid_of old, n). eauto.
    - exists k, old, (territory_id, pid_of old, arm_of old + n). eauto. }
  pose proof (proj1 (position_Some _ _ _ Hk)) as Hlt.
  split_and!.
  - transitivity (Ok (pid_of old)); [|symmetry]; apply owner_Ok.
    + exists k, new. simpl. rewrite length_insert.
      split_and!; [done| |done]. by apply list_lookup_insert_eq.
    + eauto.
  - simpl. apply length_insert.
  - intros other Hne. unfold Board.owner, Board.armies, Py.getitem. simpl.
    rewrite length_insert.
    destruct (Py.position (length (data b)) other) as [j|]; [|done].
    rewrite list_lookup_insert_ne by congruence. done.
Qed.

End Outcomes.

Lemma out_of_range_updates_witness :
  (42 < - Py.len (data sample_board) ∨ Py.len (data sample_board) ≤ 42)
  ∧ Board.set_armies 42 0 sample_board = (Raise AssertionError, sample_board)
  ∧ Board.add_armies 42 0 sample_board = (Raise IndexError, sample_board).
Proof.
  assert (42 < - Py.len (data sample_board) ∨ Py.len (data sample_board) ≤ 42) as Hout
    by (right; vm_compute; congruence).
  destruct (out_of_range_updates sample_board 42 0 Hout) as (_ & Hadd & _ & Hset).
  split; [exact Hout|]. split; [apply Hset; lia | exact Hadd].
Defined.

Lemma negative_id_breaks_indexing_witness :
  call_tid (SetArmies (-2) 5) < 0
  ∧ ∃ b', run (SetArmies (-2) 5) sample_board = (Ok (), b') ∧ ¬ self_indexed b'.
Proof.
  assert (call_tid (SetArmies (-2) 5) < 0) as Hneg by (simpl; lia).
  split; [exact Hneg|].
  exists (run (SetArmies (-2) 5) sample_board).2.
  assert (run (SetArmies (-2) 5) sample_board
          = (Ok (), (run (SetArmies (-2) 5) sample_board).2)) as Hrun
    by (vm_compute; reflexivity).
  split; [exact Hrun|].
  exact (proj1 (negative_id_breaks_indexing sample_board _ _ Hneg Hrun)).
Defined.

Lemma army_update_frame_witness :
  ∃ b', Board.add_armies 13 4 sample_board = (Ok (), b')
        ∧ Board.owner b' 13 = Ok 0
        ∧ length (data b') = 42%nat.
Proof.
  exists (Board.add_armies 13 4 sample_board).2.
  assert (Board.add_armies 13 4 sample_board
          = (Ok (), (Board.add_armies 13 4 sample_board).2)) as Hrun
    by (vm_compute; reflexivity).
  destruct (army_update_frame sample_board 13 4 _ (or_intror Hrun)) as (Hown & Hlen & _).
  split; [exact Hrun|]. split.
  - rewrite Hown. vm_compute. reflexivity.
  - rewrite Hlen. reflexivity.
Defined.

(** ** How the mutating calls compose *)

Section Composition.

Implicit Types (b : Board) (t : Territory) (c : call).

(** Extra: two successive [add_armies] calls on one id act as a single
    call with the sum, whenever the first one succeeds. *)
Theorem add_armies_compose b territory_id n m b1 b2 :
  Board.add_armies territory_id n b = (Ok (), b1) →
  Board.add_armies territory_id m b1 = (Ok (), b2)
  ↔ Board.add_armies territory_id (n + m) b = (Ok (), b2).
Proof.
  intros (k & old & Hk & Ho & Hn & ->)%add_armies_Ok.
  pose proof (proj1 (position_Some _ _ _ Hk)) as Hlt.
  rewrite !add_armies_Ok. simpl. rewrite length_insert. split.
  - intros (k' & new & Hk' & Hnew & Hm & ->).
    rewrite Hk in Hk'; injection Hk' as <-.
    rewrite list_lookup_insert_eq in Hnew by done. injection Hnew as <-.
    simpl in *. exists k, old. split_and!; [done|done|lia|].
    rewrite list_insert_insert_eq. do 3 f_equal. lia.
  - intros (k' & old' & Hk' & Ho' & Hm & ->).
    rewrite Hk in Hk'; injection Hk' as <-.
    rewrite Ho in Ho'; injection Ho' as <-.
    exists k, (territory_id, pid_of old, arm_of old + n).
    split_and!; [done|by apply list_lookup_insert_eq|simpl; lia|].
    rewrite list_insert_insert_eq. simpl. do 3 f_equal. lia.
Qed.

(** Extra: on a self-indexed board with positive armies, adding [n] armies
    at an id of the board and then adding [-n] gives back the very same
    board. *)
Theorem add_armies_undo b territory_id n b1 :
  self_indexed b → armies_positive b → 0 ≤ territory_id →
  Board.add_armies territory_id n b = (Ok (), b1) →
  Board.add_armies territory_id (- n) b1 = (Ok (), b).
Proof.
  intros Hinv Hpos Htid Hrun.
  apply (add_armies_compose _ _ _ _ _ _ Hrun).
  apply add_armies_Ok in Hrun as (k & old & Hk & Ho & _ & _).
  apply add_armies_Ok. exists k, old.
  assert (1 ≤ arm_of old) by (eapply Hpos, list_elem_of_lookup_2, Ho).
  split_and!; [done|done|lia|].
  destruct b as [l]. simpl in *. f_equal. symmetry. apply list_insert_id.
  rewrite Ho. f_equal. apply position_nonneg_Some in Hk as [-> Hr]; [|done].
  pose proof (Hinv _ _ Ho) as Hid. simpl in Hid.
  destruct old as [[i q] a]. unfold tid_of, pid_of, arm_of in *; simpl in *.
  f_equal; [f_equal|]; lia.
Qed.

(** Extra: of two successive [set_owner] calls on one id only the last
    counts; in particular repeating a call changes nothing more. *)
Theorem set_owner_last_wins b territory_id p q b1 :
  Board.set_owner territory_id p b = (Ok (), b1) →
  Board.set_owner territory_id q b1 = Board.set_owner territory_id q b
  ∧ Board.set_owner territory_id p b1 = (Ok (), b1).
Proof.
  intros (k & old & Hk & Ho & ->)%set_owner_Ok.
  pose proof (proj1 (position_Some _ _ _ Hk)) as Hlt.
  assert (∀ r, Board.set_owner territory_id r
                 (mkBoard (<[k := (territory_id, p, arm_of old)]> (data b)))
               = (Ok (), mkBoard (<[k := (territory_id, r, arm_of old)]> (data b))))
    as Hagain.
  { intros r. rewrite set_owner_unfold. simpl.
    rewrite length_insert, Hk, list_lookup_insert_eq by done.
    by rewrite list_insert_insert_eq. }
  split; [|apply Hagain].
  rewrite Hagain. symmetry. apply set_owner_Ok. eauto.
Qed.

(** Extra: two successful calls whose ids denote different positions can
    be swapped: the other order succeeds too and ends in the same board. *)
Theorem calls_commute b c1 c2 b1 b12 :
  Py.position (length (data b)) (call_tid c1)
  ≠ Py.position (length (data b)) (call_tid c2) →
  run c1 b = (Ok (), b1) → run c2 b1 = (Ok (), b12) →
  ∃ b2, run c2 b = (Ok (), b2) ∧ run c1 b2 = (Ok (), b12).
Proof.
  intros Hne (k1 & old1 & Hk1 & Ho1 & Hg1 & ->)%run_Ok_iff.
  intros (k2 & old2 & Hk2 & Ho2 & Hg2 & ->)%run_Ok_iff.
  simpl in *. rewrite length_insert in Hk2.
  assert (k1 ≠ k2) as Hk by congruence.
  rewrite list_lookup_insert_ne in Ho2 by done.
  exists (mkBoard (<[k2 := written c2 old2]> (data b))). split.
  - apply run_Ok_iff. eauto 10.
  - apply run_Ok_iff. exists k1, old1. simpl. rewrite length_insert.
    split_and!; [done| |done|].
    + by rewrite list_lookup_insert_ne.
    + f_equal. by apply list_insert_insert_ne.
Qed.

End Composition.

Lemma add_armies_compose_witness :
  ∃ b1 b2, Board.add_armies 13 4 sample_board = (Ok (), b1)
           ∧ Board.add_armies 13 (-6) b1 = (Ok (), b2)
           ∧ Board.add_armies 13 (4 + -6) sample_board = (Ok (), b2).
Proof.
  exists (Board.add_armies 13 4 sample_board).2.
  exists (Board.add_armies 13 (-6) (Board.add_armies 13 4 sample_board).2).2.
  assert (Board.add_armies 13 4 sample_board
          = (Ok (), (Board.add_armies 13 4 sample_board).2)) as H1
    by (vm_compute; reflexivity).
  assert (Board.add_armies 13 (-6) (Board.add_armies 13 4 sample_board).2
          = (Ok (), (Board.add_armies 13 (-6) (Board.add_armies 13 4 sample_board).2).2))
    as H2 by (vm_compute; reflexivity).
  split; [exact H1|]. split; [exact H2|].
  exact (proj1 (add_armies_compose sample_board 13 4 (-6) _ _ H1) H2).
Defined.

Lemma add_armies_undo_witness :
  self_indexed sample_board ∧ armies_positive sample_board ∧ 0 ≤ 13
  ∧ ∃ b1, Board.add_armies 13 4 sample_board = (Ok (), b1)
          ∧ Board.add_armies 13 (- 4) b1 = (Ok (), sample_board).
Proof.
  assert (0 ≤ 13) as Hpos by lia.
  split; [exact sample_self_indexed|]. split; [exact sample_armies_positive|].
  split; [exact Hpos|].
  exists (Board.add_armies 13 4 sample_board).2.
  assert (Board.add_armies 13 4 sample_board
          = (Ok (), (Board.add_armies 13 4 sample_board).2)) as H1
    by (vm_compute; reflexivity).
  split; [exact H1|].
  exact (add_armies_undo sample_board 13 4 _ sample_self_indexed
           sample_armies_positive Hpos H1).
Defined.

Lemma set_owner_last_wins_witness :
  ∃ b1, Board.set_owner 13 2 sample_board = (Ok (), b1)
        ∧ Board.set_owner 13 3 b1 = Board.set_owner 13 3 sample_board.
Proof.
  exists (Board.set_owner 13 2 sample_board).2.
  assert (Board.set_owner 13 2 sample_board
          = (Ok (), (Board.set_owner 13 2 sample_board).2)) as H1
    by (vm_compute; reflexivity).
  split; [exact H1|].
  exact (proj1 (set_owner_last_wins sample_board 13 2 3 _ H1)).
Defined.

Lemma calls_commute_witness :
  Py.position (length (data sample_board)) (call_tid (SetOwner 12 0))
  ≠ Py.position (length (data sample_board)) (call_tid (AddArmies 13 2))
  ∧ ∃ b1 b12 b2,
      run (SetOwner 12 0) sample_board = (Ok (), b1)
      ∧ run (AddArmies 13 2) b1 = (Ok (), b12)
      ∧ run (AddArmies 13 2) sample_board = (Ok (), b2)
      ∧ run (SetOwner 12 0) b2 = (Ok (), b12).
Proof.
  assert (Py.position (length (data sample_board)) (call_tid (SetOwner 12 0))
          ≠ Py.position (length (data sample_board)) (call_tid (AddArmies 13 2)))
    as Hne by (vm_compute; congruence).
  split; [exact Hne|].
  exists (run (SetOwner 12 0) sample_board).2.
  exists (run (AddArmies 13 2) (run (SetOwner 12 0) sample_board).2).2.
  assert (run (SetOwner 12 0) sample_board
          = (Ok (), (run (SetOwner 12 0) sample_board).2)) as H1
    by (vm_compute; reflexivity).
  assert (run (AddArmies 13 2) (run (SetOwner 12 0) sample_board).2
          = (Ok (), (run (AddArmies 13 2) (run (SetOwner 12 0) sample_board).2).2))
    as H2 by (vm_compute; reflexivity).
  destruct (calls_commute sample_board _ _ _ _ Hne H1 H2) as (b2 & H3 & H4).
  exists b2. split; [exact H1|]. split; [exact H2|]. split; [exact H3|exact H4].
Defined.

(** ** Territory and army counts *)

Section Counts.

Implicit Types (b : Board) (t : Territory) (l : list Territory).

Lemma n_territories_nil p : Board.n_territories (mkBoard []) p = 0.
Proof. done. Qed.

Lemma n_territories_cons t l p :
  Board.n_territories (mkBoard (t :: l)) p
  = indicator (pid_of t) p + Board.n_territories (mkBoard l) p.
Proof.
  unfold Board.n_territories, indicator. simpl. rewrite filter_cons.
  destruct (decide (pid_of t = p)); [rewrite fmap_cons, length_cons|]; lia.
Qed.

Lemma n_armies_cons t l p :
  Board.n_armies (mkBoard (t :: l)) p
  = arm_of t * indicator (pid_of t) p + Board.n_armies (mkBoard l) p.
Proof.
  unfold Board.n_armies, indicator. simpl. rewrite filter_cons.
  destruct (decide (pid_of t = p)); [rewrite fmap_cons|]; unfold Py.sum; csimpl; lia.
Qed.

Lemma n_territories_app l k p :
  Board.n_territories (mkBoard (l ++ k)) p
  = Board.n_territories (mkBoard l) p + Board.n_territories (mkBoard k) p.
Proof.
  induction l as [|t l IH]; [done|].
  rewrite <- app_comm_cons, !n_territories_cons, IH. lia.
Qed.

Lemma n_armies_app l k p :
  Board.n_armies (mkBoard (l ++ k)) p
  = Board.n_armies (mkBoard l) p + Board.n_armies (mkBoard k) p.
Proof.
  induction l as [|t l IH]; [done|].
  rewrite <- app_comm_cons, !n_armies_cons, IH. lia.
Qed.

(** Overwriting one record moves its contribution to the counts. *)
Lemma counts_insert l (k : nat) old new p :
  l !! k = Some old →
  Board.n_territories (mkBoard (<[k := new]> l)) p
  = Board.n_territories (mkBoard l) p - indicator (pid_of old) p + indicator (pid_of new) p
  ∧ Board.n_armies (mkBoard (<[k := new]> l)) p
    = Board.n_armies (mkBoard l) p - arm_of old * indicator (pid_of old) p
      + arm_of new * indicator (pid_of new) p.
Proof.
  intros Ho. pose proof (lookup_lt_Some _ _ _ Ho) as Hlt.
  rewrite insert_take_drop by done.
  rewrite <- (take_drop_middle l k old Ho) at 3 6.
  rewrite !n_territories_app, !n_armies_app, !n_territories_cons, !n_armies_cons.
  lia.
Qed.

(** Extra: a successful [set_owner] moves one territory and its armies
    from the old owner to the new one in [n_territories] and [n_armies],
    and changes the counts of nobody else. *)
Theorem set_owner_transfers b territory_id p b' :
  Board.set_owner territory_id p b = (Ok (), b') →
  ∃ q a, Board.owner b territory_id = Ok q ∧ Board.armies b territory_id = Ok a
    ∧ ∀ r, Board.n_territories b' r
           = Board.n_territories b r - indicator q r + indicator p r
         ∧ Board.n_armies b' r
           = Board.n_armies b r - a * indicator q r + a * indicator p r.
Proof.
  intros (k & old & Hk & Ho & ->)%set_owner_Ok.
  exists (pid_of old), (arm_of old). split_and!.
  - apply owner_Ok. eauto.
  - apply armies_Ok. eauto.
  - intros r. destruct b as [l]. simpl in *.
    apply (counts_insert l k old (territory_id, p, arm_of old) r Ho).
Qed.

(** Extra: a successful [add_armies] changes nobody's [n_territories] and
    adds [n] to the [n_armies] of the owner read at the id, and of nobody
    else. *)
Theorem add_armies_counts b territory_id n b' :
  Board.add_armies territory_id n b = (Ok (), b') →
  ∃ q, Board.owner b territory_id = Ok q
    ∧ ∀ r, Board.n_territories b' r = Board.n_territories b r
         ∧ Board.n_armies b' r = Board.n_armies b r + n * indicator q r.
Proof.
  intros (k & old & Hk & Ho & _ & ->)%add_armies_Ok.
  exists (pid_of old). split; [apply owner_Ok; eauto|].
  intros r. destruct b as [l]. simpl in *.
  destruct (counts_insert l k old (territory_id, pid_of old, arm_of old + n) r Ho)
    as [Ht Ha].
  split; [etransitivity; [apply Ht|] | etransitivity; [apply Ha|]];
    unfold pid_of, arm_of; simpl; lia.
Qed.

(** Extra: when every record holds at least one army, a player has at
    least as many armies as territories, and has no armies exactly when
    the player owns no record. *)
Theorem n_armies_bounds b p :
  armies_positive b →
  Board.n_territories b p ≤ Board.n_armies b p
  ∧ (Board.n_armies b p = 0 ↔ ∀ t, t ∈ data b → pid_of t ≠ p).
Proof.
  destruct b as [l]. unfold armies_positive. simpl. intros Hpos.
  induction l as [|t l IH].
  - split; [done|]. split; [intros _ t Ht; by apply elem_of_nil in Ht | done].
  - destruct IH as [IHle IHz]; [intros u Hu; apply Hpos; by right|].
    assert (1 ≤ arm_of t) as Ht by (apply Hpos; left).
    assert (0 ≤ Board.n_territories (mkBoard l) p)
      by (unfold Board.n_territories; lia).
    rewrite n_territories_cons, n_armies_cons. unfold indicator.
    destruct (decide (pid_of t = p)) as [Heq|Hne].
    + split; [nia|]. split; [nia|]. intros Hall. destruct (Hall t); [left|done].
    + split; [lia|]. rewrite Z.mul_0_r, Z.add_0_l, IHz. split.
      * intros Hall u [->|Hu]%elem_of_cons; [done|by apply Hall].
      * intros Hall u Hu. apply Hall. by right.
Qed.

Lemma sum_cons x (k : list Z) : Py.sum (x :: k) = x + Py.sum k.
Proof. done. Qed.

Lemma sum_app (k1 k2 : list Z) : Py.sum (k1 ++ k2) = Py.sum k1 + Py.sum k2.
Proof.
  induction k1 as [|x k1 IH]; [done|].
  rewrite <- app_comm_cons, !sum_cons, IH. lia.
Qed.

Lemma sum_fmap_add {A} (f g : A → Z) (k : list A) :
  Py.sum ((λ x, f x + g x) <$> k) = Py.sum (f <$> k) + Py.sum (g <$> k).
Proof.
  induction k as [|x k IH]; [done|]. rewrite !fmap_cons, !sum_cons, IH. lia.
Qed.

Lemma sum_indicator q (m : nat) :
  Py.sum (indicator q <$> (Z.of_nat <$> seq 0 m))
  = if decide (0 ≤ q < Z.of_nat m) then 1 else 0.
Proof.
  induction m as [|m IH]; [by rewrite decide_False by lia|].
  rewrite seq_S, !fmap_app, sum_app, IH. simpl seq.
  rewrite !fmap_cons, !fmap_nil, sum_cons. unfold indicator. simpl.
  repeat case_decide; lia.
Qed.

(** Adding the counts of the players [0 .. n-1]. *)
Lemma n_territories_total_list l n :
  (∀ t, t ∈ l → 0 ≤ pid_of t < n) →
  Py.sum (Board.n_territories (mkBoard l) <$> Py.range n) = Py.len l.
Proof.
  intros Hall. induction l as [|t l IH].
  - unfold Py.len. simpl. induction (Py.range n) as [|x k IHk]; [done|].
    by rewrite fmap_cons, sum_cons, IHk.
  - rewrite (list_fmap_ext _ (λ p, indicator (pid_of t) p
                                  + Board.n_territories (mkBoard l) p) (Py.range n))
      by (intros; apply n_territories_cons).
    rewrite (sum_fmap_add (indicator (pid_of t)) (Board.n_territories (mkBoard l))).
    rewrite IH by (intros u Hu; apply Hall; by right).
    unfold Py.range at 1. rewrite sum_indicator.
    specialize (Hall t (list_elem_of_here _ _)).
    rewrite decide_True by lia. unfold Py.len. rewrite length_cons. lia.
Qed.

End Counts.

Lemma set_owner_transfers_witness :
  ∃ b', Board.set_owner 12 0 sample_board = (Ok (), b')
        ∧ Board.n_territories b' 0 = 13 ∧ Board.n_territories b' 1 = 4
        ∧ Board.n_territories b' 2 = 13.
Proof.
  exists (Board.set_owner 12 0 sample_board).2.
  assert (Board.set_owner 12 0 sample_board
          = (Ok (), (Board.set_owner 12 0 sample_board).2)) as Hrun
    by (vm_compute; reflexivity).
  destruct (set_owner_transfers sample_board 12 0 _ Hrun) as (q & a & Hq & _ & Hcount).
  assert (q = 1) as -> by (vm_compute in Hq; congruence).
  split; [exact Hrun|]. split; [|split].
  - rewrite (proj1 (Hcount 0)). vm_compute. reflexivity.
  - rewrite (proj1 (Hcount 1)). vm_compute. reflexivity.
  - rewrite (proj1 (Hcount 2)). vm_compute. reflexivity.
Defined.

Lemma add_armies_counts_witness :
  ∃ b', Board.add_armies 13 4 sample_board = (Ok (), b')
        ∧ Board.n_armies b' 0 = 18 ∧ Board.n_armies b' 1 = 5.
Proof.
  exists (Board.add_armies 13 4 sample_board).2.
  assert (Board.add_armies 13 4 sample_board
          = (Ok (), (Board.add_armies 13 4 sample_board).2)) as Hrun
    by (vm_compute; reflexivity).
  destruct (add_armies_counts sample_board 13 4 _ Hrun) as (q & Hq & Hcount).
  assert (q = 0) as -> by (vm_compute in Hq; congruence).
  split; [exact Hrun|]. split.
  - rewrite (proj2 (Hcount 0)). vm_compute. reflexivity.
  - rewrite (proj2 (Hcount 1)). vm_compute. reflexivity.
Defined.

Lemma n_armies_bounds_witness :
  armies_positive sample_board
  ∧ Board.n_territories sample_board 0 ≤ Board.n_armies sample_board 0.
Proof.
  split; [exact sample_armies_positive|].
  exact (proj1 (n_armies_bounds sample_board 0 sample_armies_positive)).
Defined.

(** ** Creation for any number of players *)

Section CreateAny.

Variable shuffle : list Z → list Z.

Lemma repeat_list_S {A} (l : list A) k :
  Py.repeat_list l (S k) = l ++ Py.repeat_list l k.
Proof. done. Qed.

Lemma length_repeat_list {A} (l : list A) k :
  length (Py.repeat_list l k) = (k * length l)%nat.
Proof.
  induction k as [|k IH]; [done|]. rewrite repeat_list_S, length_app, IH. lia.
Qed.

(** Slot [i] of a repeated list holds element [i mod len(l)] of [l]. *)
Lemma lookup_repeat_list {A} (l : list A) k i :
  (i < k * length l)%nat →
  Py.repeat_list l k !! i = l !! (i mod length l)%nat.
Proof.
  revert i. induction k as [|k IH]; intros i Hi; [lia|].
  rewrite repeat_list_S. destruct (decide (i < length l)%nat) as [Hlt|Hge].
  - rewrite lookup_app_l by done. by rewrite Nat.mod_small.
  - rewrite lookup_app_r by lia. rewrite IH by lia. f_equal.
    replace i with ((i - length l) + 1 * length l)%nat at 2 by lia.
    by rewrite Nat.Div0.mod_add.
Qed.

Lemma length_range n : length (Py.range n) = Z.to_nat n.
Proof. unfold Py.range. by rewrite length_fmap, length_seq. Qed.

Lemma lookup_range n (i : nat) :
  (i < Z.to_nat n)%nat → Py.range n !! i = Some (Z.of_nat i).
Proof.
  intros Hi. unfold Py.range. rewrite list_lookup_fmap.
  by rewrite (proj2 (lookup_seq 0 _ i i)).
Qed.

Lemma allocation_any n : 1 ≤ n → Board.allocation n = cyclic_fill n 42.
Proof.
  intros Hn. apply list_eq. intros i.
  unfold Board.allocation, Py.slice_to, cyclic_fill.
  destruct (decide (i < 42)%nat) as [Hi|Hi].
  - rewrite lookup_take_lt by done.
    rewrite lookup_repeat_list by (rewrite length_range; nia).
    rewrite length_range, list_lookup_fmap.
    rewrite (lookup_range 42 i) by lia.
    assert (i mod Z.to_nat n < Z.to_nat n)%nat as Hm
      by (apply Nat.mod_upper_bound; lia).
    rewrite lookup_range by done. simpl. f_equal.
    rewrite Nat2Z.inj_mod, Z2Nat.id by lia. done.
  - rewrite lookup_take_ge by lia. symmetry. apply lookup_ge_None_2.
    rewrite length_fmap, length_range. lia.
Qed.

Lemma allocation_nonpositive n : n ≤ 0 → Board.allocation n = [].
Proof.
  intros Hn. unfold Board.allocation, Py.range.
  replace (Z.to_nat n) with 0%nat by lia. reflexivity.
Qed.

Lemma count_in_range p m :
  length (filter (λ x, x = p) (Py.range m))
  = if decide (0 ≤ p < m) then 1%nat else 0%nat.
Proof.
  unfold Py.range.
  assert (∀ k : nat, length (filter (λ x, x = p) (Z.of_nat <$> seq 0 k))
                     = if decide (0 ≤ p < Z.of_nat k) then 1%nat else 0%nat) as Hk.
  { induction k as [|k IH]; [by rewrite decide_False by lia|].
    rewrite seq_S, fmap_app, filter_app, length_app, IH. simpl seq.
    rewrite fmap_cons, fmap_nil, filter_cons, filter_nil.
    repeat case_decide; simpl; lia. }
  rewrite Hk. repeat case_decide; lia.
Qed.

Lemma count_in_allocation_small :
  Forall (λ n, Forall (λ p, Py.len (filter (λ x, x = p) (Board.allocation n)) = share n p)
                      (Py.range n))
         (seqZ 1 42).
Proof. apply (bool_decide_unpack _). vm_compute. exact I. Qed.

Lemma count_in_allocation n p :
  1 ≤ n → 0 ≤ p < n →
  Py.len (filter (λ x, x = p) (Board.allocation n)) = share n p.
Proof.
  intros Hn Hp. destruct (decide (n ≤ 42)) as [Hsmall|Hbig].
  - pose proof (proj1 (Forall_forall _ _) count_in_allocation_small n) as Hall.
    apply (proj1 (Forall_forall _ _) (Hall ltac:(apply elem_of_seqZ; lia))).
    by apply elem_of_range.
  - rewrite allocation_any by done. unfold cyclic_fill, share.
    rewrite (list_fmap_ext _ id (Py.range 42)), list_fmap_id.
    + unfold Py.len. rewrite count_in_range.
      rewrite Z.div_small, Z.mod_small by lia.
      repeat case_decide; lia.
    + intros i x Hx%list_elem_of_lookup_2%elem_of_range. simpl.
      apply Z.mod_small. lia.
Qed.

End CreateAny.

Section CreateGeneral.

Variable shuffle : list Z → list Z.
Hypothesis shuffle_perm : is_shuffle shuffle.

Lemma create_owners_any n :
  1 ≤ n → pid_of <$> data (Board.create shuffle n) ≡ₚ cyclic_fill n 42.
Proof.
  intros Hn. rewrite create_pids, <- allocation_any by done. apply shuffle_perm.
Qed.

Lemma create_records_any n :
  1 ≤ n →
  length (data (Board.create shuffle n)) = 42%nat
  ∧ ∀ t, t ∈ data (Board.create shuffle n) →
         arm_of t = 1 ∧ 0 ≤ pid_of t < Z.min n 42.
Proof.
  intros Hn. pose proof (create_owners_any n Hn) as Hperm. split.
  - rewrite <- (length_fmap pid_of), Hperm. unfold cyclic_fill.
    by rewrite length_fmap, length_range.
  - intros t Ht. split.
    + apply list_elem_of_lookup in Ht as [i Hi].
      by apply create_lookup in Hi as (pid & _ & ->).
    + assert (pid_of t ∈ pid_of <$> data (Board.create shuffle n)) as Hin
        by (by apply list_elem_of_fmap_2).
      apply (elem_of_Permutation_proper _ _ _ Hperm) in Hin.
      unfold cyclic_fill in Hin.
      apply list_elem_of_fmap in Hin as (i & -> & Hi%elem_of_range).
      pose proof (Z.mod_pos_bound i n ltac:(lia)).
      pose proof (Z.mod_le i n ltac:(lia) ltac:(lia)). lia.
Qed.

(** Extra: the board that [Board.create] returns, when it returns one (the
    list [range(n_players)*42] has to fit in memory), has no records for
    [n_players <= 0]; for [n_players >= 1], also beyond 6 or 42, it has 42
    self-indexed records holding one army each, and their owners are a
    permutation of [i mod n_players] for [i] in 0..41, hence ids below both
    [n_players] and 42. *)
Theorem create_any_player_count n_players :
  (n_players ≤ 0 → data (Board.create shuffle n_players) = [])
  ∧ (1 ≤ n_players →
     length (data (Board.create shuffle n_players)) = 42%nat
     ∧ self_indexed (Board.create shuffle n_players)
     ∧ (∀ t, t ∈ data (Board.create shuffle n_players) →
             arm_of t = 1 ∧ 0 ≤ pid_of t < Z.min n_players 42)
     ∧ pid_of <$> data (Board.create shuffle n_players) ≡ₚ cyclic_fill n_players 42).
Proof.
  split.
  - intros Hn. rewrite create_data, allocation_nonpositive by done.
    by rewrite (proj1 (Permutation_nil_r _) (shuffle_perm [])).
  - intros Hn. destruct (create_records_any n_players Hn) as [Hlen Hrec].
    split_and!; [done|apply create_self_indexed|done|by apply create_owners_any].
Qed.

(** Extra: for every [n_players >= 1] player [p] of [range(n_players)]
    receives [floor(42/n_players)] territories, and one more exactly when
    [p < 42 mod n_players]; ids outside [range(n_players)] receive none.
    With more than 42 players the players 42 and up own nothing. *)
Theorem create_shares n_players p :
  1 ≤ n_players →
  (0 ≤ p < n_players →
   Board.n_territories (Board.create shuffle n_players) p = share n_players p)
  ∧ (¬ 0 ≤ p < n_players →
     Board.n_territories (Board.create shuffle n_players) p = 0)
  ∧ (42 < n_players → 42 ≤ p →
     Board.n_territories (Board.create shuffle n_players) p = 0).
Proof.
  intros Hn.
  assert (0 ≤ p < n_players →
          Board.n_territories (Board.create shuffle n_players) p = share n_players p)
    as Hshare.
  { intros Hp. rewrite (create_n_territories shuffle shuffle_perm).
    by apply count_in_allocation. }
  assert (¬ 0 ≤ p < n_players →
          Board.n_territories (Board.create shuffle n_players) p = 0) as Hnone.
  { intros Hp. rewrite (create_n_territories shuffle shuffle_perm), allocation_any by done.
    rewrite filter_none; [done|]. unfold cyclic_fill.
    intros x (i & -> & _)%list_elem_of_fmap Heq.
    pose proof (Z.mod_pos_bound i n_players ltac:(lia)). lia. }
  split_and!; [done..|].
  intros Hbig Hp. destruct (decide (p < n_players)) as [Hlt|Hge].
  - rewrite Hshare by lia. unfold share.
    rewrite Z.div_small, Z.mod_small by lia. by rewrite decide_False by lia.
  - apply Hnone. lia.
Qed.

(** Extra: on a created board with [n_players >= 1] every player has as
    many armies as territories, and the territory counts of the players
    [0 .. n_players-1] add up to 42. *)
Theorem create_counts n_players :
  1 ≤ n_players →
  (∀ p, Board.n_armies (Board.create shuffle n_players) p
        = Board.n_territories (Board.create shuffle n_players) p)
  ∧ Py.sum (Board.n_territories (Board.create shuffle n_players) <$> Py.range n_players)
    = 42.
Proof.
  intros Hn.
  destruct (create_records_any n_players Hn) as (Hlen & Hrec).
  split.
  - intros p. revert Hrec. generalize (Board.create shuffle n_players).
    intros [l] Hrec. simpl in Hrec. induction l as [|t l IH]; [done|].
    rewrite n_armies_cons, n_territories_cons, IH by (intros u Hu; apply Hrec; by right).
    rewrite (proj1 (Hrec t (list_elem_of_here _ _))). lia.
  - destruct (Board.create shuffle n_players) as [l]. simpl in *.
    rewrite n_territories_total_list; [unfold Py.len; lia|].
    intros t Ht. destruct (Hrec t Ht). lia.
Qed.

End CreateGeneral.

(** ** Continents at the edges *)

Section ContinentEdges.

Variable defs : Definitions.
Implicit Types (b : Board) (t : Territory).

Lemma distinct_owners_no_records b members :
  continent_records b members = [] → size (distinct_owners b members) = 0%nat.
Proof. intros Hrec. unfold distinct_owners. by rewrite Hrec. Qed.

Lemma continent_owner_empty_board cid :
  Board.continent_owner defs (mkBoard []) cid = Ok None.
Proof. done. Qed.

Lemma continent_owner_KeyError b cid :
  continent_territories defs !! cid = None → data b ≠ [] →
  Board.continent_owner defs b cid = Raise KeyError.
Proof.
  intros Hm Hb. unfold Board.continent_owner.
  by rewrite (continent_KeyError defs b cid Hm Hb).
Qed.

Lemma continent_owner_Raise b cid e :
  Board.continent_owner defs b cid = Raise e ↔
  e = KeyError ∧ continent_territories defs !! cid = None ∧ data b ≠ [].
Proof.
  destruct (continent_territories defs !! cid) as [members|] eqn:Hm.
  - destruct (continent_owner_cases defs b cid members Hm)
      as [(q & _ & ->)|[_ ->]]; split; try done; by intros (_ & ? & _).
  - destruct (decide (data b = [])) as [Hb|Hb].
    + destruct b as [l]. simpl in Hb. subst l. rewrite continent_owner_empty_board.
      split; [done | by intros (_ & _ & ?)].
    + rewrite continent_owner_KeyError by done.
      split; [by intros [= <-] | by intros [-> _]].
Qed.

(** Extra: [continent_owner] raises only [KeyError], and exactly when the
    continent id has no member list and the board has a record; on a board
    without records it returns [None] for every continent id, known or not,
    and it returns [None] for a known continent none of whose members is
    on the board. *)
Theorem continent_owner_edges b continent_id :
  (data b = [] → Board.continent_owner defs b continent_id = Ok None)
  ∧ (∀ e, Board.continent_owner defs b continent_id = Raise e ↔
          e = KeyError ∧ continent_territories defs !! continent_id = None
          ∧ data b ≠ [])
  ∧ (∀ members, continent_territories defs !! continent_id = Some members →
                (∀ t, t ∈ data b → tid_of t ∉ members) →
                Board.continent_owner defs b continent_id = Ok None).
Proof.
  split_and!.
  - destruct b as [l]. simpl. intros ->. apply continent_owner_empty_board.
  - intros e. apply continent_owner_Raise.
  - intros members Hm Hnone. apply (continent_owner_None defs b _ members Hm).
    rewrite distinct_owners_no_records; [done|].
    apply filter_none. intros t Ht. by apply Hnone.
Qed.

(** Extra: on a self-indexed board that holds the members of a continent,
    when the continent is owned by [p], handing one member to another
    player [q] makes [continent_owner] return [None] if the continent has
    a second member; and when [p] owns every record of the continent but
    the one of member [m], handing [m] to [p] makes [p] the owner. *)
Theorem continent_conquest b continent_id members m p q b' :
  continent_territories defs !! continent_id = Some members →
  self_indexed b → holds_members b members → m ∈ members →
  Board.set_owner m q b = (Ok (), b') →
  (Board.continent_owner defs b continent_id = Ok (Some p) → q ≠ p →
   (∃ m', m' ∈ members ∧ m' ≠ m) →
   Board.continent_owner defs b' continent_id = Ok None)
  ∧ ((∀ t, t ∈ continent_records b members → tid_of t ≠ m → pid_of t = q) →
     Board.continent_owner defs b' continent_id = Ok (Some q)).
Proof.
  intros Hm Hinv Hhold Hin (k & old & Hk & Ho & Hb')%set_owner_Ok.
  destruct (Hhold m Hin) as (tm & [j Hj]%list_elem_of_lookup & Htm).
  pose proof (Hinv _ _ Hj) as Hjm. rewrite Htm in Hjm.
  apply position_nonneg_Some in Hk as [-> _]; [|lia].
  assert (Z.to_nat m = j) as Hmj by lia.
  pose proof (lookup_lt_Some _ _ _ Ho) as Hlt.
  pose (new := (m, q, arm_of old) : Territory).
  assert (data b' = <[Z.to_nat m := new]> (data b)) as Hdata by (by rewrite Hb').
  clear Hb'.
  assert (new ∈ continent_records b' members) as Hnew.
  { apply list_elem_of_filter. split; [done|].
    apply (list_elem_of_lookup_2 _ (Z.to_nat m)). rewrite Hdata.
    by apply list_lookup_insert_eq. }
  assert (∀ t, t ∈ continent_records b' members →
               t = new ∨ (t ∈ continent_records b members ∧ tid_of t ≠ m)) as Hrec.
  { intros t [Ht [i Hi]%list_elem_of_lookup]%list_elem_of_filter.
    rewrite Hdata in Hi.
    apply list_lookup_insert_Some in Hi as [(_ & <- & _)|[Hne Hi]]; [by left|].
    right. split.
    - apply list_elem_of_filter. split; [done|]. by eapply list_elem_of_lookup_2.
    - rewrite (Hinv _ _ Hi). lia. }
  split.
  - intros Hown Hqp (m' & Hin' & Hne).
    apply (continent_owner_Some defs b _ members p Hm) in Hown.
    apply distinct_owners_singleton in Hown as [_ Hall].
    destruct (Hhold m' Hin') as (t' & [i Hi]%list_elem_of_lookup & Ht').
    pose proof (Hinv _ _ Hi) as Hid. rewrite Ht' in Hid.
    assert (t' ∈ continent_records b' members) as Hin2.
    { apply list_elem_of_filter. split; [by rewrite Ht'|].
      apply (list_elem_of_lookup_2 _ i). rewrite Hdata.
      rewrite list_lookup_insert_ne by lia. done. }
    assert (pid_of t' = p) as Hp.
    { apply Hall, list_elem_of_filter. split; [by rewrite Ht'|].
      by eapply list_elem_of_lookup_2. }
    destruct (continent_owner_cases defs b' continent_id members Hm)
      as [(r & Hr & _)|[_ ->]]; [|done].
    apply distinct_owners_singleton in Hr as [_ Hall'].
    pose proof (Hall' _ Hnew) as H1. pose proof (Hall' _ Hin2) as H2.
    unfold new, pid_of in H1; simpl in H1. unfold pid_of in Hp, H2. congruence.
  - intros Hrest. apply (continent_owner_Some defs b' _ members q Hm).
    apply distinct_owners_singleton. split; [eauto|].
    intros t [->|[Ht Hne]]%Hrec; [done|]. by apply Hrest.
Qed.

Lemma disjoint_filters {A} (P Q : A → Prop) `{∀ x, Decision (P x)} `{∀ x, Decision (Q x)}
    (l : list A) :
  (∀ x, P x → Q x → False) →
  (length (filter P l) + length (filter Q l) ≤ length l)%nat.
Proof.
  intros Hdis. induction l as [|x l IH]; [done|].
  rewrite !filter_cons. destruct (decide (P x)), (decide (Q x)); simpl; try lia.
  by destruct (Hdis x).
Qed.

Lemma n_continents_Ok b p :
  (∀ c, 0 ≤ c < 6 → is_Some (continent_territories defs !! c)) →
  Board.n_continents defs b p
  = Ok (Py.len (filter (λ c, Board.continent_owner defs b c = Ok (Some p)) (Py.range 6))).
Proof.
  intros Hpop. unfold Board.n_continents.
  rewrite (generate_filter (λ c, Board.continent_owner defs b c = Ok (Some p))); [done|].
  intros c [members Hm]%elem_of_range%Hpop.
  destruct (continent_owner_cases defs b c members Hm) as [(r & _ & ->)|[_ ->]]; simpl.
  - unfold mret, result_ret. f_equal. apply bool_decide_ext. split; congruence.
  - done.
Qed.

(** Extra: when the continent ids 0..5 all have a member list,
    [n_continents] returns the number of those six continents whose
    [continent_owner] is the player; it lies between 0 and 6, and the
    counts of two different players add up to at most 6. *)
Theorem n_continents_spec b p q :
  (∀ c, 0 ≤ c < 6 → is_Some (continent_territories defs !! c)) →
  ∃ np nq, Board.n_continents defs b p = Ok np
    ∧ Board.n_continents defs b q = Ok nq
    ∧ np = Py.len (filter (λ c, Board.continent_owner defs b c = Ok (Some p)) (Py.range 6))
    ∧ 0 ≤ np ≤ 6
    ∧ (p ≠ q → np + nq ≤ 6).
Proof.
  intros Hpop. eexists _, _. rewrite !n_continents_Ok by done.
  split_and!; [done..| | |].
  - unfold Py.len. lia.
  - unfold Py.len.
    pose proof (length_filter (λ c, Board.continent_owner defs b c = Ok (Some p))
                  (Py.range 6)) as Hle.
    rewrite length_range in Hle. lia.
  - intros Hne. unfold Py.len.
    pose proof (disjoint_filters
                  (λ c, Board.continent_owner defs b c = Ok (Some p))
                  (λ c, Board.continent_owner defs b c = Ok (Some q))
                  (Py.range 6)) as Hle.
    rewrite length_range in Hle. specialize (Hle ltac:(intros; congruence)). lia.
Qed.

End ContinentEdges.

(** ** Reinforcements at the edges *)

Section ReinforcementEdges.

Variable defs : Definitions.
Implicit Types (b : Board) (p : Z).

(** The bonus loop stops at the first continent whose owner lookup raises. *)
Lemma bonus_loop_Raise b p (items : list (Z * Z)) acc :
  (∃ x, x ∈ items ∧ continent_territories defs !! x.1 = None) → data b ≠ [] →
  Py.for_fold
    (λ acc '(continent_id, bonus),
       o ← Board.continent_owner defs b continent_id;
       mret (if decide (o = Some p) then acc + bonus else acc))
    acc items
  = Raise KeyError.
Proof.
  intros Hex Hb. revert acc. induction items as [|[cid bonus] items IH]; intros acc.
  { destruct Hex as (x & Hx & _). by apply elem_of_nil in Hx. }
  simpl. destruct (Board.continent_owner defs b cid) as [o|e] eqn:Ho; simpl.
  - apply IH. destruct Hex as (x & [->|Hx]%elem_of_cons & Hnone); [|eauto].
    simpl in Hnone.
    rewrite (continent_owner_KeyError defs b cid Hnone Hb) in Ho. done.
  - by apply continent_owner_Raise in Ho as [-> _].
Qed.

Lemma sum_nonnegative (l : list Z) : (∀ x, x ∈ l → 0 ≤ x) → 0 ≤ Py.sum l.
Proof.
  induction l as [|x l IH]; intros Hl; [done|]. rewrite sum_cons.
  specialize (Hl x (list_elem_of_here _ _)) as Hx.
  specialize (IH (λ y Hy, Hl y (list_elem_of_further _ _ _ Hy))). lia.
Qed.

(** Extra: [reinforcements] raises only [KeyError], and exactly when the
    board has a record and some continent of [continent_bonuses] has no
    member list; on a board without records it returns 3 whatever the
    tables hold. *)
Theorem reinforcements_errors b player_id :
  (data b = [] → Board.reinforcements defs b player_id = Ok 3)
  ∧ (∀ e, Board.reinforcements defs b player_id = Raise e ↔
          e = KeyError ∧ data b ≠ []
          ∧ ∃ c, is_Some (continent_bonuses defs !! c)
                 ∧ continent_territories defs !! c = None).
Proof.
  assert (∀ items : list (Z * Z), data b = [] → ∀ acc,
            Py.for_fold
              (λ acc '(continent_id, bonus),
                 o ← Board.continent_owner defs b continent_id;
                 mret (if decide (o = Some player_id) then acc + bonus else acc))
              acc items = Ok acc) as Hempty.
  { intros items Hb. destruct b as [l]. simpl in Hb. subst l.
    induction items as [|[cid bonus] items IH]; intros acc; [done|].
    simpl. rewrite continent_owner_empty_board. simpl. apply IH. }
  split.
  - intros Hb. unfold Board.reinforcements. rewrite Hempty by done. simpl.
    unfold Board.n_territories. by rewrite Hb.
  - intros e. destruct (decide (data b = [])) as [Hb|Hb].
    { unfold Board.reinforcements. rewrite Hempty by done. simpl.
      split; [done | by intros (_ & ? & _)]. }
    destruct (decide (Exists (λ x, continent_territories defs !! x.1 = None)
                        (map_to_list (continent_bonuses defs)))) as [Hex|Hall].
    + apply Exists_exists in Hex as ([c x] & Hin & Hnone). simpl in Hnone.
      unfold Board.reinforcements. rewrite bonus_loop_Raise; [|by eauto|done].
      simpl. split; [|by intros [-> _]]. intros [= <-].
      split_and!; [done..|]. exists c. split; [|done].
      exists x. by apply elem_of_map_to_list.
    + assert (continents_populated defs) as Hpop.
      { intros c [x Hx]. destruct (continent_territories defs !! c) eqn:Hm; [done|].
        destruct Hall. apply Exists_exists. exists (c, x).
        split; [by apply elem_of_map_to_list|done]. }
      rewrite reinforcements_Ok by done. split; [done|].
      intros (_ & _ & c & Hc%Hpop & Hnone). rewrite Hnone in Hc. by destruct Hc.
Qed.

(** Extra: when every continent with a bonus has a member list and no
    bonus is negative, [reinforcements] returns at least 3 and at least a
    third of the player's territory count, and at most that base plus all
    the bonuses of the table. *)
Theorem reinforcements_bounds b player_id :
  continents_populated defs →
  (∀ c bonus, continent_bonuses defs !! c = Some bonus → 0 ≤ bonus) →
  ∃ r, Board.reinforcements defs b player_id = Ok r
    ∧ 3 ≤ r
    ∧ Board.n_territories b player_id / 3 ≤ r
    ∧ r ≤ Z.max 3 (Board.n_territories b player_id / 3)
          + Py.sum (snd <$> map_to_list (continent_bonuses defs)).
Proof.
  intros Hpop Hnonneg. eexists. split; [by apply reinforcements_Ok|].
  assert (0 ≤ Py.sum (owned_bonuses defs b player_id)) as Hlow.
  { apply sum_nonnegative. unfold owned_bonuses.
    intros x ([c y] & -> & [_ Hin%elem_of_map_to_list]%list_elem_of_filter)%list_elem_of_fmap.
    by eapply Hnonneg. }
  assert (Py.sum (owned_bonuses defs b player_id)
          ≤ Py.sum (snd <$> map_to_list (continent_bonuses defs))) as Hup.
  { unfold owned_bonuses.
    assert (∀ x, x ∈ map_to_list (continent_bonuses defs) → 0 ≤ x.2) as Hall
      by (intros [c y] Hin%elem_of_map_to_list; by eapply Hnonneg).
    induction (map_to_list (continent_bonuses defs)) as [|x l IH]; [done|].
    specialize (IH (λ y Hy, Hall y (list_elem_of_further _ _ _ Hy))).
    specialize (Hall x (list_elem_of_here _ _)).
    rewrite filter_cons, fmap_cons, sum_cons.
    case_decide; [rewrite fmap_cons, sum_cons|]; lia. }
  lia.
Qed.

End ReinforcementEdges.

(** ** The fraction of a continent *)

Section Fractions.

Variable defs : Definitions.
Implicit Types (b : Board) (t : Territory).

Lemma filter_length_all {A} (P : A → Prop) `{∀ x, Decision (P x)} (l : list A) :
  length (filter P l) = length l ↔ ∀ x, x ∈ l → P x.
Proof.
  split.
  - induction l as [|x l IH]; intros Hlen y Hy; [by apply elem_of_nil in Hy|].
    pose proof (length_filter P l) as Hle. rewrite filter_cons in Hlen.
    destruct (decide (P x)) as [Hx|Hx]; simpl in Hlen; [|lia].
    apply elem_of_cons in Hy as [->|Hy]; [done|]. apply IH; [lia|done].
  - intros Hall. by rewrite filter_all.
Qed.

(** Extra: for a continent with a member list, [continent_fraction]
    raises [ZeroDivisionError] exactly when the board holds no record of
    the continent; otherwise it divides the number of the continent's
    records owned by the player by the number of the continent's records,
    with [0 <= num <= den] and [0 < den], and the two are equal exactly
    when [continent_owner] returns the player.  Without a member list it
    raises [KeyError] on a board with records and [ZeroDivisionError] on
    one without. *)
Theorem continent_fraction_spec b continent_id player_id :
  (∀ members, continent_territories defs !! continent_id = Some members →
     (continent_records b members = [] ↔
      Board.continent_fraction defs b continent_id player_id = ZeroDivisionError)
     ∧ (continent_records b members ≠ [] →
        ∃ num den,
          Board.continent_fraction defs b continent_id player_id = Quotient num den
          ∧ num = Py.len (filter (λ t, pid_of t = player_id) (continent_records b members))
          ∧ den = Py.len (continent_records b members)
          ∧ 0 ≤ num ≤ den ∧ 0 < den
          ∧ (num = den ↔
             Board.continent_owner defs b continent_id = Ok (Some player_id))))
  ∧ (continent_territories defs !! continent_id = None →
     Board.continent_fraction defs b continent_id player_id
     = if decide (data b = []) then ZeroDivisionError else FractionRaise KeyError).
Proof.
  split.
  - intros members Hm. unfold Board.continent_fraction.
    rewrite (continent_Ok defs b _ members Hm).
    set (recs := continent_records b members).
    assert (Py.len recs = 0 ↔ recs = []) as Hzero.
    { unfold Py.len. destruct recs; simpl; split; (done || lia). }
    split.
    + split.
      * intros Hnil. by rewrite decide_True by (by apply Hzero).
      * case_decide; [by intros _; apply Hzero | done].
    + intros Hne. rewrite decide_False by (by rewrite Hzero).
      eexists _, _. split; [done|].
      pose proof (length_filter (λ t, pid_of t = player_id) recs) as Hle.
      assert (0 < Py.len recs) as Hpos
        by (unfold Py.len in *; destruct recs; [done|simpl; lia]).
      split_and!; [done|done|unfold Py.len; lia|unfold Py.len; lia|done|].
      rewrite (continent_owner_Some defs b _ members _ Hm), distinct_owners_singleton.
      unfold all_owned. fold recs. unfold Py.len.
      rewrite Nat2Z.inj_iff, filter_length_all. split.
      * intros Hall. split; [|done]. destruct recs as [|t ?]; [done|].
        exists t. left.
      * by intros [_ ?].
  - intros Hm. unfold Board.continent_fraction.
    destruct (decide (data b = [])) as [Hb|Hb].
    + destruct b as [l]. simpl in Hb. subst l. by rewrite continent_no_records.
    + by rewrite continent_KeyError.
Qed.

End Fractions.

(** ** Neighbors and attacks at the edges *)

Section AttackEdges.

Variable defs : Definitions.
Implicit Types (b : Board) (t u : Territory) (a : Attack).

(** Extra: [neighbors] needs only a neighbor list for the id and raises
    [KeyError] without one; [hostile_neighbors] first reads the owner at
    the id, so it raises [IndexError] for an id outside the index range
    even when the list is missing, and [KeyError] otherwise; when both
    succeed the hostile neighbors are the neighbors not owned by the owner
    read at the id, in the same order. *)
Theorem hostile_neighbors_spec b territory_id :
  (territory_neighbors defs !! territory_id = None →
   Board.neighbors defs b territory_id = Raise KeyError)
  ∧ (Py.position (length (data b)) territory_id = None →
     Board.hostile_neighbors defs b territory_id = Raise IndexError)
  ∧ (Py.position (length (data b)) territory_id ≠ None →
     territory_neighbors defs !! territory_id = None →
     Board.hostile_neighbors defs b territory_id = Raise KeyError)
  ∧ (∀ neighbor_ids, territory_neighbors defs !! territory_id = Some neighbor_ids →
       Board.neighbors defs b territory_id
       = Ok (filter (λ t, tid_of t ∈ neighbor_ids) (data b))
       ∧ ∀ q, Board.owner b territory_id = Ok q →
              Board.hostile_neighbors defs b territory_id
              = Ok (filter (λ t, pid_of t ≠ q)
                      (filter (λ t, tid_of t ∈ neighbor_ids) (data b)))).
Proof.
  split_and!.
  - intros Hn. unfold Board.neighbors, Py.dict_get. by rewrite Hn.
  - intros Hp. unfold Board.hostile_neighbors.
    by rewrite (proj2 (owner_Raise b territory_id IndexError)).
  - intros Hp Hn. unfold Board.hostile_neighbors, Py.dict_get.
    destruct (Board.owner b territory_id) as [q|e] eqn:Ho.
    + simpl. by rewrite Hn.
    + by apply owner_Raise in Ho as [_ ?].
  - intros ns Hn. split; [by apply neighbors_Ok|].
    intros q Hq. unfold Board.hostile_neighbors, Py.dict_get. rewrite Hq, Hn. simpl.
    unfold mret, result_ret. f_equal.
    rewrite list_filter_filter. apply list_filter_iff. tauto.
Qed.

Lemma for_each_Raise {A B} (f : A → result B) (l : list A) e :
  (∃ x, x ∈ l ∧ f x = Raise e) → (∀ x e', x ∈ l → f x = Raise e' → e' = e) →
  Py.for_each f l = Raise e.
Proof.
  induction l as [|x l IH]; intros (y & Hy & Hfy) Hall.
  { by apply elem_of_nil in Hy. }
  simpl. destruct (f x) as [z|e'] eqn:Hfx; simpl.
  - rewrite IH; [done| |].
    + apply elem_of_cons in Hy as [->|Hy]; [congruence|eauto].
    + intros x' e'' Hx'. apply Hall. by right.
  - f_equal. eapply Hall; [left|done].
Qed.

Lemma attacks_from_outcome b t :
  self_indexed b → t ∈ data b →
  Board.attacks_from defs b t
  = match territory_neighbors defs !! tid_of t with
    | Some _ => Ok (Board.attack t <$> hostiles defs b t)
    | None => Raise KeyError
    end.
Proof.
  intros Hinv Ht. unfold Board.attacks_from.
  destruct (territory_neighbors defs !! tid_of t) as [ns|] eqn:Hn.
  - unfold hostiles. by rewrite (hostile_neighbors_Ok defs b t ns).
  - unfold Board.hostile_neighbors, Py.dict_get.
    destruct (self_indexed_record b t Hinv Ht) as (_ & -> & _). simpl.
    by rewrite Hn.
Qed.

(** Extra: on a self-indexed board [possible_attacks] looks up neighbor
    lists only for the player's territories with more than one army: it
    succeeds when each of them has a list, and raises [KeyError] when one
    of them has none.  When no territory of the player holds more than one
    army it returns the empty list whatever the table holds. *)
Theorem possible_attacks_errors b player_id :
  self_indexed b →
  ((∀ t, t ∈ Board.offensive b player_id →
         is_Some (territory_neighbors defs !! tid_of t)) →
   ∃ attacks, Board.possible_attacks defs b player_id = Ok attacks)
  ∧ ((∃ t, t ∈ Board.offensive b player_id
           ∧ territory_neighbors defs !! tid_of t = None) →
     Board.possible_attacks defs b player_id = Raise KeyError)
  ∧ (Board.offensive b player_id = [] →
     Board.possible_attacks defs b player_id = Ok []).
Proof.
  intros Hinv.
  assert (∀ t, t ∈ Board.offensive b player_id → t ∈ data b) as Hsub
    by (by intros t [_ ?]%list_elem_of_filter).
  split_and!.
  - intros Hpop. unfold Board.possible_attacks.
    rewrite (for_each_fmap _ (λ t, Board.attack t <$> hostiles defs b t)).
    + simpl. eauto.
    + intros t Ht. rewrite attacks_from_outcome by auto.
      by destruct (Hpop t Ht) as [ns ->].
  - intros (t & Ht & Hnone). unfold Board.possible_attacks.
    rewrite (for_each_Raise _ _ KeyError); [done| |].
    + exists t. split; [done|]. rewrite attacks_from_outcome by auto. by rewrite Hnone.
    + intros u e Hu. rewrite attacks_from_outcome by auto.
      destruct (territory_neighbors defs !! tid_of u); congruence.
  - intros Hoff. unfold Board.possible_attacks. by rewrite Hoff.
Qed.

(** Membership in the list of attacks, from the records. *)
Lemma possible_attacks_elem b p attacks fr_tid fr_arm to_tid to_pid to_arm :
  self_indexed b → neighbors_populated defs b →
  Board.possible_attacks defs b p = Ok attacks →
  ((fr_tid, fr_arm, to_tid, to_pid, to_arm) : Attack) ∈ attacks ↔
  ((fr_tid, p, fr_arm) : Territory) ∈ data b ∧ fr_arm > 1
  ∧ ((to_tid, to_pid, to_arm) : Territory) ∈ data b ∧ to_pid ≠ p
  ∧ ∃ ns, territory_neighbors defs !! fr_tid = Some ns ∧ to_tid ∈ ns.
Proof.
  intros Hinv Hpop. rewrite possible_attacks_Ok by done. intros [= <-].
  rewrite list_elem_of_bind. split.
  - intros (t & (u & Heq & Hu)%list_elem_of_fmap & [[Hp Harm] Ht]%list_elem_of_filter).
    destruct (Hpop t Ht) as [ns Hn].
    unfold hostiles in Hu. rewrite (hostile_neighbors_Ok defs b t ns) in Hu by done.
    apply list_elem_of_filter in Hu as [[Hne Hin] Hu].
    destruct t as [[i q] x], u as [[i' q'] x'].
    unfold Board.attack, tid_of, pid_of, arm_of in *; simpl in *.
    injection Heq as -> -> -> -> ->. subst q. eauto 10.
  - intros (Ht & Harm & Hu & Hne & ns & Hn & Hin).
    exists (fr_tid, p, fr_arm). split.
    + apply list_elem_of_fmap. exists (to_tid, to_pid, to_arm). split; [done|].
      unfold hostiles.
      rewrite (hostile_neighbors_Ok defs b (fr_tid, p, fr_arm) ns) by done.
      apply list_elem_of_filter. done.
    + apply list_elem_of_filter. done.
Qed.

(** Extra: with a symmetric neighbor table that has a list for every id
    on the board, on a self-indexed board, an attack of player [p] on a
    territory that itself holds more than one army can be answered: the
    reverse tuple is among the possible attacks of the territory's
    owner. *)
Theorem attacks_reverse b p attacks fr_tid fr_arm to_tid to_pid to_arm :
  self_indexed b → neighbors_populated defs b →
  (∀ i j ns, territory_neighbors defs !! i = Some ns → j ∈ ns →
             ∃ ms, territory_neighbors defs !! j = Some ms ∧ i ∈ ms) →
  Board.possible_attacks defs b p = Ok attacks →
  ((fr_tid, fr_arm, to_tid, to_pid, to_arm) : Attack) ∈ attacks →
  to_arm > 1 →
  ∃ replies, Board.possible_attacks defs b to_pid = Ok replies
    ∧ ((to_tid, to_arm, fr_tid, p, fr_arm) : Attack) ∈ replies.
Proof.
  intros Hinv Hpop Hsym Hok Hin Harm.
  apply (possible_attacks_elem b p attacks) in Hin
    as (Ht & _ & Hu & Hne & ns & Hn & Hto); [|done..].
  eexists. split; [by apply possible_attacks_Ok|].
  apply (possible_attacks_elem b to_pid); [done|done|by apply possible_attacks_Ok|].
  destruct (Hsym _ _ _ Hn Hto) as (ms & Hms & Hfr).
  split_and!; [done|done|done|congruence|eauto].
Qed.

End AttackEdges.

(** ** A new game *)

Section NewGame.

Variable shuffle : list Z → list Z.

Lemma offensive_none b p :
  (∀ t, t ∈ data b → pid_of t = p → arm_of t ≤ 1) → Board.offensive b p = [].
Proof.
  intros Hall. apply filter_none. intros t Ht [Hp Harm].
  specialize (Hall t Ht Hp). lia.
Qed.

(** Extra: a player none of whose territories holds more than one army
    has no possible attack, on any board and with any neighbor table; so
    right after [Board.create] nobody can attack. *)
Theorem create_no_attacks defs b n_players p :
  ((∀ t, t ∈ data b → pid_of t = p → arm_of t ≤ 1) →
   Board.possible_attacks defs b p = Ok [])
  ∧ Board.possible_attacks defs (Board.create shuffle n_players) p = Ok [].
Proof.
  assert (∀ b', (∀ t, t ∈ data b' → pid_of t = p → arm_of t ≤ 1) →
                Board.possible_attacks defs b' p = Ok []) as Hgen.
  { intros b' Hall. unfold Board.possible_attacks.
    by rewrite (offensive_none b' p Hall). }
  split; [apply Hgen|]. apply Hgen.
  intros t [i Hi]%list_elem_of_lookup _.
  by apply create_lookup in Hi as (pid & _ & ->).
Qed.

Hypothesis shuffle_perm : is_shuffle shuffle.

(** Extra: [Game.create] keeps the player list, starts at turn [-1], and
    gives every list position [i] the card tally [(i, 0, 0, 0)] and the
    mission slot [(i, None)].  With no players the board has no records;
    otherwise it has 42 records of one army each whose owners are
    positions of the player list (whatever the [pid] of the player stored
    there). *)
Theorem game_create_consistent players :
  Game.players (Game.create shuffle players) = players
  ∧ Game.turn (Game.create shuffle players) = -1
  ∧ length (Game.cards (Game.create shuffle players)) = length players
  ∧ length (Game.missions (Game.create shuffle players)) = length players
  ∧ (∀ i : nat, (i < length players)%nat →
       Game.cards (Game.create shuffle players) !! i = Some (Z.of_nat i, 0, 0, 0)
       ∧ Game.missions (Game.create shuffle players) !! i = Some (Z.of_nat i, None))
  ∧ (players = [] → data (Game.board (Game.create shuffle players)) = [])
  ∧ (players ≠ [] →
     length (data (Game.board (Game.create shuffle players))) = 42%nat
     ∧ ∀ t, t ∈ data (Game.board (Game.create shuffle players)) →
            arm_of t = 1 ∧ 0 ≤ pid_of t
            ∧ is_Some (players !! Z.to_nat (pid_of t))).
Proof.
  assert (Game.board (Game.create shuffle players)
          = Board.create shuffle (Py.len players)) as -> by done.
  assert (Game.cards (Game.create shuffle players)
          = (λ pid, (pid, 0, 0, 0)) <$> Py.range (Py.len players)) as -> by done.
  assert (Game.missions (Game.create shuffle players)
          = (λ pid, (pid, None)) <$> Py.range (Py.len players)) as -> by done.
  unfold Py.len. split_and!; [done|done| | | | |].
  - by rewrite length_fmap, length_range, Nat2Z.id.
  - by rewrite length_fmap, length_range, Nat2Z.id.
  - intros i Hi. rewrite !list_lookup_fmap, lookup_range by lia. done.
  - intros ->. rewrite create_data, allocation_nonpositive by done.
    by rewrite (proj1 (Permutation_nil_r _) (shuffle_perm [])).
  - intros Hne.
    assert (1 ≤ Z.of_nat (length players)) as Hn by (destruct players; [done|simpl; lia]).
    destruct (create_records_any shuffle shuffle_perm _ Hn) as [Hlen Hrec].
    split; [done|]. intros t Ht. destruct (Hrec t Ht) as [Harm Hpid].
    split_and!; [done|lia|]. apply lookup_lt_is_Some_2. lia.
Qed.

End NewGame.

(** ** The further theorems at concrete inputs *)

Lemma sample_six_continents :
  ∀ c, 0 ≤ c < 6 → is_Some (continent_territories sample_definitions !! c).
Proof.
  intros c Hc.
  assert (c = 0 ∨ c = 1 ∨ c = 2 ∨ c = 3 ∨ c = 4 ∨ c = 5) as Hcases by lia.
  destruct Hcases as [->|[->|[->|[->|[->| ->]]]]]; vm_compute; eauto.
Qed.

Lemma sample_bonuses_nonnegative :
  ∀ c bonus, continent_bonuses sample_definitions !! c = Some bonus → 0 ≤ bonus.
Proof.
  assert (map_Forall (λ (_ : Z) x, 0 ≤ x) (continent_bonuses sample_definitions)) as Hall
    by (apply (bool_decide_unpack _); vm_compute; exact I).
  intros c bonus Hc. exact (Hall c bonus Hc).
Qed.

Lemma symmetric_by_table (defs : Definitions) :
  map_Forall (λ i ns, Forall (λ j, i ∈ default [] (territory_neighbors defs !! j)) ns)
             (territory_neighbors defs) →
  ∀ i j ns, territory_neighbors defs !! i = Some ns → j ∈ ns →
            ∃ ms, territory_neighbors defs !! j = Some ms ∧ i ∈ ms.
Proof.
  intros Hall i j ns Hi Hj.
  pose proof (proj1 (Forall_forall _ _) (Hall i ns Hi) j Hj) as Hin.
  simpl in Hin. destruct (territory_neighbors defs !! j) as [ms|]; [eauto|].
  simpl in Hin. by apply elem_of_nil in Hin.
Qed.

Lemma sample_front_self_indexed : self_indexed sample_front.
Proof. apply self_indexed_by_ids. vm_compute. reflexivity. Qed.

Lemma sample_front_neighbors : neighbors_populated sample_ring sample_front.
Proof.
  apply neighbors_populated_Forall, (bool_decide_unpack _). vm_compute. exact I.
Qed.

Lemma create_any_player_count_witness :
  is_shuffle reverse ∧ 1 ≤ 50
  ∧ length (data (Board.create reverse 50)) = 42%nat
  ∧ data (Board.create reverse 0) = [].
Proof.
  assert (1 ≤ 50) as Hn by lia. assert (0 ≤ 0) as Hz by lia.
  split; [exact reverse_is_shuffle|]. split; [exact Hn|]. split.
  - exact (proj1 (proj2 (create_any_player_count reverse reverse_is_shuffle 50) Hn)).
  - exact (proj1 (create_any_player_count reverse reverse_is_shuffle 0) Hz).
Defined.

Lemma create_shares_witness :
  is_shuffle reverse ∧ 1 ≤ 5 ∧ 0 ≤ 1 < 5
  ∧ Board.n_territories (Board.create reverse 5) 1 = 9
  ∧ Board.n_territories (Board.create reverse 5) 2 = 8.
Proof.
  assert (1 ≤ 5) as Hn by lia.
  assert (0 ≤ 1 < 5) as H1 by lia. assert (0 ≤ 2 < 5) as H2 by lia.
  split; [exact reverse_is_shuffle|]. split; [exact Hn|]. split; [exact H1|]. split.
  - exact (proj1 (create_shares reverse reverse_is_shuffle 5 1 Hn) H1).
  - exact (proj1 (create_shares reverse reverse_is_shuffle 5 2 Hn) H2).
Defined.

Lemma create_counts_witness :
  is_shuffle reverse ∧ 1 ≤ 5
  ∧ Py.sum (Board.n_territories (Board.create reverse 5) <$> Py.range 5) = 42.
Proof.
  assert (1 ≤ 5) as Hn by lia.
  split; [exact reverse_is_shuffle|]. split; [exact Hn|].
  exact (proj2 (create_counts reverse reverse_is_shuffle 5 Hn)).
Defined.

Lemma continent_owner_edges_witness :
  data (mkBoard []) = []
  ∧ Board.continent_owner sample_definitions (mkBoard []) 7 = Ok None
  ∧ Board.continent_owner sample_definitions sample_board 7 = Raise KeyError.
Proof.
  assert (data (mkBoard []) = []) as Hnil by reflexivity.
  split; [exact Hnil|]. split.
  - exact (proj1 (continent_owner_edges sample_definitions (mkBoard []) 7) Hnil).
  - apply (proj1 (proj2 (continent_owner_edges sample_definitions sample_board 7))).
    split; [reflexivity|]. split; [vm_compute; reflexivity | vm_compute; congruence].
Defined.

Lemma continent_conquest_witness :
  continent_territories sample_definitions !! 0 = Some (seqZ 0 9)
  ∧ self_indexed sample_board ∧ holds_members sample_board (seqZ 0 9)
  ∧ 3 ∈ seqZ 0 9
  ∧ ∃ b', Board.set_owner 3 2 sample_board = (Ok (), b')
          ∧ Board.continent_owner sample_definitions sample_board 0 = Ok (Some 0)
          ∧ Board.continent_owner sample_definitions b' 0 = Ok None.
Proof.
  assert (continent_territories sample_definitions !! 0 = Some (seqZ 0 9)) as Hm
    by (vm_compute; reflexivity).
  assert (holds_members sample_board (seqZ 0 9)) as Hh
    by (apply holds_members_Forall, (bool_decide_unpack _); vm_compute; exact I).
  assert (3 ∈ seqZ 0 9) as Hin by (apply elem_of_seqZ; lia).
  assert (Board.set_owner 3 2 sample_board
          = (Ok (), (Board.set_owner 3 2 sample_board).2)) as Hrun
    by (vm_compute; reflexivity).
  assert (Board.continent_owner sample_definitions sample_board 0 = Ok (Some 0))
    as Hown by (vm_compute; reflexivity).
  split; [exact Hm|]. split; [exact sample_self_indexed|]. split; [exact Hh|].
  split; [exact Hin|]. eexists. split; [exact Hrun|]. split; [exact Hown|].
  apply (proj1 (continent_conquest sample_definitions sample_board 0 (seqZ 0 9) 3 0 2 _
                  Hm sample_self_indexed Hh Hin Hrun) Hown).
  - lia.
  - exists 0. split; [apply elem_of_seqZ; lia | lia].
Defined.

Lemma n_continents_spec_witness :
  (∀ c, 0 ≤ c < 6 → is_Some (continent_territories sample_definitions !! c))
  ∧ Board.n_continents sample_definitions sample_board 0 = Ok 1
  ∧ Board.n_continents sample_definitions sample_board 2 = Ok 0.
Proof.
  split; [exact sample_six_continents|].
  destruct (n_continents_spec sample_definitions sample_board 0 2 sample_six_continents)
    as (np & nq & Hp & Hq & Hnp & _ & Hsum).
  assert (np = 1) as -> by (rewrite Hnp; vm_compute; reflexivity).
  assert (0 ≠ 2) as Hne by lia. specialize (Hsum Hne).
  split; [exact Hp|]. rewrite Hq. f_equal.
  assert (Board.n_continents sample_definitions sample_board 2 = Ok 0) as H0
    by (vm_compute; reflexivity).
  congruence.
Defined.

Lemma reinforcements_errors_witness :
  data (mkBoard []) = []
  ∧ Board.reinforcements (mkDefinitions ∅ ∅ {[0 := 5]}) (mkBoard []) 0 = Ok 3
  ∧ Board.reinforcements (mkDefinitions ∅ ∅ {[0 := 5]}) sample_board 0 = Raise KeyError.
Proof.
  assert (data (mkBoard []) = []) as Hnil by reflexivity.
  split; [exact Hnil|]. split.
  - exact (proj1 (reinforcements_errors (mkDefinitions ∅ ∅ {[0 := 5]}) (mkBoard []) 0) Hnil).
  - apply (proj2 (reinforcements_errors (mkDefinitions ∅ ∅ {[0 := 5]}) sample_board 0)).
    split; [reflexivity|]. split; [vm_compute; congruence|].
    exists 0. split; [exists 5|]; vm_compute; reflexivity.
Defined.

Lemma reinforcements_bounds_witness :
  continents_populated sample_definitions
  ∧ (∀ c bonus, continent_bonuses sample_definitions !! c = Some bonus → 0 ≤ bonus)
  ∧ ∃ r, Board.reinforcements sample_definitions sample_board 2 = Ok r ∧ 3 ≤ r.
Proof.
  split; [exact sample_continents_populated|].
  split; [exact sample_bonuses_nonnegative|].
  destruct (reinforcements_bounds sample_definitions sample_board 2
              sample_continents_populated sample_bonuses_nonnegative)
    as (r & Hr & Hlow & _).
  exists r. split; [exact Hr|exact Hlow].
Defined.

Lemma continent_fraction_spec_witness :
  continent_territories sample_definitions !! 1 = Some (seqZ 9 4)
  ∧ continent_records sample_board (seqZ 9 4) ≠ []
  ∧ Board.continent_fraction sample_definitions sample_board 1 1 = Quotient 3 4
  ∧ Board.continent_fraction sample_definitions sample_board 7 0
    = FractionRaise KeyError.
Proof.
  assert (continent_territories sample_definitions !! 1 = Some (seqZ 9 4)) as Hm
    by (vm_compute; reflexivity).
  assert (continent_records sample_board (seqZ 9 4) ≠ []) as Hne
    by (vm_compute; congruence).
  assert (continent_territories sample_definitions !! 7 = None) as Hnone
    by (vm_compute; reflexivity).
  split; [exact Hm|]. split; [exact Hne|]. split.
  - destruct (proj2 (proj1 (continent_fraction_spec sample_definitions sample_board 1 1)
                       (seqZ 9 4) Hm) Hne)
      as (num & den & Hq & Hnum & Hden & _).
    rewrite Hq, Hnum, Hden. vm_compute. reflexivity.
  - rewrite (proj2 (continent_fraction_spec sample_definitions sample_board 7 0) Hnone).
    vm_compute. reflexivity.
Defined.

Lemma hostile_neighbors_spec_witness :
  Py.position (length (data sample_board)) 99 = None
  ∧ territory_neighbors sample_definitions !! 99 = None
  ∧ Board.hostile_neighbors sample_definitions sample_board 99 = Raise IndexError
  ∧ Board.neighbors sample_definitions sample_board 99 = Raise KeyError.
Proof.
  assert (Py.position (length (data sample_board)) 99 = None) as Hp
    by (vm_compute; reflexivity).
  assert (territory_neighbors sample_definitions !! 99 = None) as Hn
    by (vm_compute; reflexivity).
  destruct (hostile_neighbors_spec sample_definitions sample_board 99)
    as (Hnb & Hhost & _).
  split; [exact Hp|]. split; [exact Hn|]. split; [exact (Hhost Hp) | exact (Hnb Hn)].
Defined.

Lemma possible_attacks_errors_witness :
  self_indexed sample_board
  ∧ (∃ t, t ∈ Board.offensive sample_board 0
          ∧ territory_neighbors (mkDefinitions ∅ ∅ ∅) !! tid_of t = None)
  ∧ Board.possible_attacks (mkDefinitions ∅ ∅ ∅) sample_board 0 = Raise KeyError
  ∧ Board.possible_attacks (mkDefinitions ∅ ∅ ∅) sample_board 1 = Ok [].
Proof.
  assert (∃ t, t ∈ Board.offensive sample_board 0
               ∧ territory_neighbors (mkDefinitions ∅ ∅ ∅) !! tid_of t = None) as Hex.
  { exists (13, 0, 3). split; [|reflexivity].
    apply (bool_decide_unpack _). vm_compute. exact I. }
  assert (Board.offensive sample_board 1 = []) as Hoff by (vm_compute; reflexivity).
  split; [exact sample_self_indexed|]. split; [exact Hex|]. split.
  - exact (proj1 (proj2 (possible_attacks_errors (mkDefinitions ∅ ∅ ∅) sample_board 0
                           sample_self_indexed)) Hex).
  - exact (proj2 (proj2 (possible_attacks_errors (mkDefinitions ∅ ∅ ∅) sample_board 1
                           sample_self_indexed)) Hoff).
Defined.

Lemma attacks_reverse_witness :
  self_indexed sample_front ∧ neighbors_populated sample_ring sample_front
  ∧ Board.possible_attacks sample_ring sample_front 1 = Ok [(12, 2, 13, 0, 3)]
  ∧ 3 > 1
  ∧ ∃ replies, Board.possible_attacks sample_ring sample_front 0 = Ok replies
               ∧ ((13, 3, 12, 1, 2) : Attack) ∈ replies.
Proof.
  assert (Board.possible_attacks sample_ring sample_front 1 = Ok [(12, 2, 13, 0, 3)])
    as Hok by (vm_compute; reflexivity).
  assert (3 > 1) as Harm by lia.
  assert (∀ i j ns, territory_neighbors sample_ring !! i = Some ns → j ∈ ns →
                    ∃ ms, territory_neighbors sample_ring !! j = Some ms ∧ i ∈ ms) as Hsym.
  { apply symmetric_by_table, (bool_decide_unpack _). vm_compute. exact I. }
  split; [exact sample_front_self_indexed|]. split; [exact sample_front_neighbors|].
  split; [exact Hok|]. split; [exact Harm|].
  apply (attacks_reverse sample_ring sample_front 1 [(12, 2, 13, 0, 3)] 12 2 13 0 3
           sample_front_self_indexed sample_front_neighbors Hsym Hok);
    [left | exact Harm].
Defined.

Lemma create_no_attacks_witness :
  Board.possible_attacks (mkDefinitions ∅ ∅ ∅) (Board.create reverse 3) 1 = Ok []
  ∧ Board.possible_attacks sample_definitions sample_board 1 = Ok [].
Proof.
  destruct (create_no_attacks reverse sample_definitions sample_board 3 1) as [Hgen _].
  split.
  - exact (proj2 (create_no_attacks reverse (mkDefinitions ∅ ∅ ∅) sample_board 3 1)).
  - assert (Forall (λ t, pid_of t = 1 → arm_of t ≤ 1) (data sample_board)) as Hall
      by (apply (bool_decide_unpack _); vm_compute; exact I).
    apply Hgen. intros t Ht. exact (proj1 (Forall_forall _ _) Hall t Ht).
Defined.

Lemma game_create_consistent_witness :
  is_shuffle reverse
  ∧ [Player.mk 5 "Ann"; Player.mk 5 "Bob"] ≠ []
  ∧ length (data (Game.board (Game.create reverse [Player.mk 5 "Ann"; Player.mk 5 "Bob"])))
    = 42%nat
  ∧ Game.cards (Game.create reverse [Player.mk 5 "Ann"; Player.mk 5 "Bob"]) !! 1%nat
    = Some (1, 0, 0, 0).
Proof.
  assert ([Player.mk 5 "Ann"; Player.mk 5 "Bob"] ≠ []) as Hne by congruence.
  destruct (game_create_consistent reverse reverse_is_shuffle
              [Player.mk 5 "Ann"; Player.mk 5 "Bob"])
    as (_ & _ & _ & _ & Hslots & _ & Hboard).
  split; [exact reverse_is_shuffle|]. split; [exact Hne|]. split.
  - exact (proj1 (Hboard Hne)).
  - apply (Hslots 1%nat). simpl. lia.
Defined.
